(** * RF Explorer WebSocket bridge: frame parser and delta encoder

    A shallow embedding of [rf_explorer_bridge.py]:
    - [RFExplorerSerial.read_data], [_parse_sweep], [_parse_config]
      (the framing parser over the serial byte buffer);
    - [WebSocketBridge.handle_client_message], [_generate_delta_sweep] and
      the body of the loop of [broadcast] (the per-client delta encoder);
    - [WebSocketBridge.__init__], the two ends of [handler] and the loop of
      [broadcast] over the clients (sessions);
    - [RFExplorerSerial.send_command], [request_config], [start_sweep],
      [stop_sweep] and the text of the command of [set_frequency_range].

    Modelling conventions.
    - A [bytearray] is a [list byte]; a decoded ASCII [str] is a [list ascii].
    - A Python number is modelled by the rational [Q] it denotes;
      infinities and NaN have no counterpart.  The frequency axis of
      [_parse_sweep] is computed as the program computes it, in binary64:
      each operation returns the binary64 number nearest to its exact
      result, ties to even ([binary64]), and [round(x, n)] returns the
      binary64 number nearest to the decimal rounding of [x]
      ([round_float]).  Statements about the axis are made for
      configurations whose bounds are binary64 numbers of magnitude at
      most [2 ^ 52]: there no operation overflows, and an [int] and a
      [float] of the same value give the same results.  Amplitudes are
      halves of integers, so they, their differences and the comparison
      with the threshold are exact.  The other float expressions (the two
      quotients and the sum of [_parse_config], the compression ratio, the
      age of a baseline) are written with the exact operations of [Q]:
      what [_parse_config] stores here is the exact quotient and the
      exact sum, which the program rounds to binary64, and no statement
      below gives the frequencies of a sweep decoded under such a
      configuration.
    - [time.time()] is an input.  [_parse_sweep] reads it for the stamp of
      the frame it decodes; [read_data] is given one reading, which here
      stamps every sweep decoded by the call, where the program reads the
      clock again for each frame: frames are compared without their stamps
      ([erase_timestamp]) or under equal readings, and nothing is said of
      the stamps of two frames of one call.  [_generate_delta_sweep] takes
      the reading it makes.
    - Serial I/O is outside the model: [read_data] is the function on an
      open port, given the bytes the port returned; for the commands the
      port is its open flag and the bytes written to it.
    - [broadcast] is the run in which the set of clients is not changed
      and the task is not cancelled while it awaits [send]: the clients
      are visited in an order given from outside, each visit with its own
      clock reading.  What the event loop can raise into it (a set that
      changed size, a cancellation) is outside the model.
    - Dictionaries keyed by client id are [gmap Z]; Python lists indexed in
      place use stdpp's list lookup and insert, with the [IndexError] of an
      out-of-range assignment written out. *)

From Stdlib Require Import ZArith QArith Qabs Qround Lia Lqa Sorted.
From Stdlib.Strings Require Import Ascii String Byte.
From stdpp Require Import base option list gmap.

Local Open Scope nat_scope.

(** ** Data model *)

(** [@dataclass SweepConfig]. *)
Record SweepConfig := mkSweepConfig {
  start_freq_mhz : Q;
  end_freq_mhz : Q;
  steps : Z;
  rbw_khz : Q
}.

(** The defaults of the dataclass: 1990.0, 6000.0, 112, 600.0. *)
Definition default_config : SweepConfig :=
  mkSweepConfig (1990 # 1) (6000 # 1) 112 (600 # 1).

(** One entry of a sweep's ['data'] list: [{'frequency': _, 'amplitude': _}]. *)
Record SweepData := mkSweepData {
  frequency : Q;
  amplitude : Q
}.

(** The dictionaries returned by [_parse_sweep] and [_parse_config];
    [asdict(self.config)] is a snapshot of the configuration. *)
Inductive message :=
  | SweepMsg (timestamp : Z) (config : SweepConfig) (data : list SweepData)
  | ConfigMsg (config : SweepConfig).

(** The parser's fields of [RFExplorerSerial]: the shared configuration and
    the unconsumed bytes. *)
Record RFExplorerSerial := mkSerial {
  config : SweepConfig;
  buffer : list byte
}.

Definition set_buffer (self : RFExplorerSerial) (b : list byte) : RFExplorerSerial :=
  mkSerial (config self) b.

(** ** Numbers *)

(** Nearest integer, ties to the even one: the rounding of Python's
    [round] on the exact value. *)
Definition round_half_even (x : Q) : Z :=
  let f := Qfloor x in
  let r := (x - inject_Z f)%Q in
  match (r ?= 1 # 2)%Q with
  | Lt => f
  | Gt => (f + 1)%Z
  | Eq => if Z.even f then f else (f + 1)%Z
  end.

(** [round(x, ndigits)] on the exact value: the decimal number with
    [ndigits] decimals nearest to [x]. *)
Definition py_round (x : Q) (ndigits : nat) : Q :=
  (inject_Z (round_half_even (x * inject_Z (10 ^ Z.of_nat ndigits)))
   / inject_Z (10 ^ Z.of_nat ndigits))%Q.

(** ** Binary64 *)

(** [2 ^ e], for an exponent of either sign. *)
Definition pow2 (e : Z) : Q := Qpower (2 # 1) e.

(** The exponent [e] with [2 ^ e <= |x| < 2 ^ (e + 1)], for [x] other than
    zero: the binary logarithms of numerator and denominator give it up to
    one. *)
Definition exponent_of (x : Q) : Z :=
  let e := (Z.log2 (Z.abs (Qnum x)) - Z.log2 (Zpos (Qden x)))%Z in
  if Qle_bool (pow2 e) (Qabs x) then e else (e - 1)%Z.

(** The binary64 number nearest to [x], ties to the even significand: 53
    bits from the exponent of [x] down, and no bit below [2 ^ -1074].
    This is what a float operation returns when its exact result is [x]
    and lies within the range of binary64; beyond it the program has an
    infinity, which is outside the model. *)
Definition binary64 (x : Q) : Q :=
  let x := Qred x in
  if Qeq_bool x 0 then 0%Q
  else
    let q := Z.max (exponent_of x - 52) (-1074) in
    Qred (inject_Z (round_half_even (x / pow2 q)) * pow2 q).

Definition fadd (x y : Q) : Q := binary64 (x + y).
Definition fsub (x y : Q) : Q := binary64 (x - y).
Definition fmul (x y : Q) : Q := binary64 (x * y).
Definition fdiv (x y : Q) : Q := binary64 (x / y).

(** [round(x, ndigits)] on a float: CPython rounds the exact value of [x]
    to [ndigits] decimals, half to even, and returns the float nearest to
    that decimal number. *)
Definition round_float (x : Q) (ndigits : nat) : Q := binary64 (py_round x ndigits).

(** ** Bytes and slices *)

Definition MARKER : byte := x24.   (* ord('$') *)
Definition TAG_SWEEP : byte := x53.  (* 'S' *)
Definition TAG_CONFIG : byte := x43. (* 'C' *)
Definition CR : byte := x0d.
Definition LF : byte := x0a.

(** [b[i]] for an index known to be in range; the default is never read on
    the paths below, each access being guarded by a length test. *)
Definition byte_at (b : list byte) (i : nat) : byte := nth i b x00.

(** [buffer.index(x)]: [None] stands for the [ValueError]. *)
Fixpoint index_of (x : byte) (b : list byte) : option nat :=
  match b with
  | [] => None
  | y :: r => if Byte.eqb y x then Some 0 else S <$> index_of x r
  end.

(** ** [_parse_sweep] *)

(** The point appended at iteration [i] of the loop over [range(steps)]:
    [-raw_value / 2.0] and [start_freq_mhz + (i * freq_step)], each
    rounded with [round]. *)
Definition sweep_point (cfg : SweepConfig) (freq_step : Q) (b : list byte) (i : nat)
    : SweepData :=
  let raw_value := Z.of_nat (Byte.to_nat (byte_at b (3 + i))) in
  let amplitude_dbm := fdiv (inject_Z (- raw_value)) (2 # 1) in
  let frequency_mhz := fadd (start_freq_mhz cfg) (fmul (inject_Z (Z.of_nat i)) freq_step) in
  mkSweepData (round_float frequency_mhz 3) (round_float amplitude_dbm 1).

(** [_parse_sweep]: [None] with the state untouched while the frame is
    incomplete; otherwise the sweep dictionary, and the buffer cut by
    [expected_length].  [now] is [int(time.time() * 1000)]. *)
Definition _parse_sweep (now : Z) (self : RFExplorerSerial)
    : option message * RFExplorerSerial :=
  let b := buffer self in
  if length b <? 4 then (None, self)
  else
    let steps := Byte.to_nat (byte_at b 2) in
    let expected_length := 3 + steps + 1 in
    if length b <? expected_length then (None, self)
    else
      let cfg := config self in
      let freq_step :=
        if 1 <? steps
        then fdiv (fsub (end_freq_mhz cfg) (start_freq_mhz cfg))
                  (inject_Z (Z.of_nat steps - 1))
        else 0%Q in
      let sweep_data := map (sweep_point cfg freq_step b) (seq 0 steps) in
      (Some (SweepMsg now cfg sweep_data), set_buffer self (drop expected_length b)).

(** ** [int(str)] on ASCII text *)

Definition str := list ascii.

(** [bytes.decode('ascii')]: [None] stands for the [UnicodeDecodeError]
    raised at the first byte above 0x7f. *)
Fixpoint decode_ascii (b : list byte) : option str :=
  match b with
  | [] => Some []
  | x :: r =>
      if Byte.to_nat x <? 128
      then (ascii_of_byte x ::.) <$> decode_ascii r
      else None
  end.

(** [Py_ISSPACE]: tab, LF, VT, FF, CR and space. *)
Definition is_space (c : ascii) : bool :=
  let n := nat_of_ascii c in ((9 <=? n) && (n <=? 13)) || (n =? 32).

Definition is_digit (c : ascii) : bool :=
  let n := nat_of_ascii c in (48 <=? n) && (n <=? 57).

Definition digit_value (c : ascii) : Z := Z.of_nat (nat_of_ascii c - 48).

Fixpoint lstrip (s : str) : str :=
  match s with
  | c :: r => if is_space c then lstrip r else s
  | [] => []
  end.

(** The digit scan of [PyLong_FromString] in base 10: digits, with single
    underscores allowed between them; what follows the number may only be
    white space.  [prev_us] records that the previous character was an
    underscore. *)
Fixpoint scan_digits (acc : Z) (prev_us : bool) (s : str) : option Z :=
  match s with
  | [] => if prev_us then None else Some acc
  | c :: r =>
      if is_digit c then scan_digits (acc * 10 + digit_value c) false r
      else if Ascii.eqb c "_"
      then (if prev_us then None else scan_digits acc true r)
      else if prev_us then None
      else match lstrip s with [] => Some acc | _ :: _ => None end
  end.

(** The number must start with a digit. *)
Definition scan_number (s : str) : option Z :=
  match s with
  | c :: _ => if is_digit c then scan_digits 0 false s else None
  | [] => None
  end.

(** [int(s)] for an ASCII [str]: [None] stands for the [ValueError]. *)
Definition py_int (s : str) : option Z :=
  match lstrip s with
  | c :: r =>
      if Ascii.eqb c "-" then Z.opp <$> scan_number r
      else if Ascii.eqb c "+" then scan_number r
      else scan_number (c :: r)
  | [] => None
  end.

(** ** [_parse_config] *)

Definition is_eol (x : byte) : bool := Byte.eqb x CR || Byte.eqb x LF.

(** The first index of a CR or LF in [b], if any. *)
Fixpoint find_eol (b : list byte) : option nat :=
  match b with
  | [] => None
  | x :: r => if is_eol x then Some 0 else S <$> find_eol r
  end.

(** The end-of-line search with its fallback: [Some eol_idx] when the
    function goes on to parse, [None] when it returns [None] to wait for
    more bytes.  The [for] loop looks at [range(min(len(buffer), 100))]. *)
Definition eol_index (b : list byte) : option nat :=
  match find_eol (take (min (length b) 100) b) with
  | Some i => Some i
  | None => if length b <? 100 then None else Some 50
  end.

(** [buffer[lo:hi]]. *)
Definition slice (lo hi : nat) (b : list byte) : list byte :=
  take (hi - lo) (drop lo b).

(** What the [try] block can raise. *)
Inductive config_error := ValueError | UnicodeDecodeError.

(** The body of the [try] block: the configuration it leaves, or the
    exception it raises.  [decode] raises [UnicodeDecodeError], each [int]
    raises [ValueError]; the two assignments come after both conversions. *)
Definition try_config (cfg : SweepConfig) (payload : list byte)
    : config_error + SweepConfig :=
  match decode_ascii payload with
  | None => inl UnicodeDecodeError
  | Some config_str =>
      if 14 <=? length config_str then
        match py_int (take 7 config_str) with
        | None => inl ValueError
        | Some start_freq_khz =>
            match py_int (take 7 (drop 7 config_str)) with
            | None => inl ValueError
            | Some freq_span_khz =>
                let start := (inject_Z start_freq_khz / (1000 # 1))%Q in
                inr (mkSweepConfig start
                                   (start + inject_Z freq_span_khz / (1000 # 1))%Q
                                   (steps cfg) (rbw_khz cfg))
            end
        end
      else inr cfg
  end.

(** [try: ... except (ValueError, UnicodeDecodeError) as e: logger.warning]:
    the handler catches both and changes nothing. *)
Definition config_update (cfg : SweepConfig) (payload : list byte) : SweepConfig :=
  match try_config cfg payload with
  | inr cfg' => cfg'
  | inl ValueError => cfg
  | inl UnicodeDecodeError => cfg
  end.

Definition _parse_config (self : RFExplorerSerial)
    : option message * RFExplorerSerial :=
  let b := buffer self in
  match eol_index b with
  | None => (None, self)
  | Some eol_idx =>
      let cfg := config_update (config self) (slice 2 eol_idx b) in
      (Some (ConfigMsg cfg), mkSerial cfg (drop (eol_idx + 1) b))
  end.

(** ** [read_data] *)

(** One pass through the body of [while len(self.buffer) > 0], entered with
    a non-empty buffer: either the loop is left ([Break]) or it goes round
    again ([Continue]), with the messages appended on the way. *)
Inductive iteration :=
  | Break (self : RFExplorerSerial)
  | Continue (appended : list message) (self : RFExplorerSerial).

(** The body from [if len(self.buffer) < 3] on, once the buffer starts at
    the marker. *)
Definition dispatch (now : Z) (self : RFExplorerSerial) : iteration :=
  if length (buffer self) <? 3 then Break self
  else
    let msg_type := byte_at (buffer self) 1 in
    if Byte.eqb msg_type TAG_SWEEP then
      match _parse_sweep now self with
      | (Some message, self) => Continue [message] self
      | (None, self) => Break self
      end
    else if Byte.eqb msg_type TAG_CONFIG then
      match _parse_config self with
      | (Some message, self) => Continue [message] self
      | (None, self) => Break self
      end
    else Continue [] (set_buffer self (drop 1 (buffer self))).

Definition loop_body (now : Z) (self : RFExplorerSerial) : iteration :=
  match index_of MARKER (buffer self) with
  | None => Break (set_buffer self [])
  | Some start_idx =>
      let self :=
        if 0 <? start_idx then set_buffer self (drop start_idx (buffer self))
        else self in
      dispatch now self
  end.

(** The [while] loop, with a bound on the number of iterations; [None]
    means the bound was reached before the loop ended. *)
Fixpoint parse_loop (fuel : nat) (now : Z) (self : RFExplorerSerial)
    : option (list message * RFExplorerSerial) :=
  match fuel with
  | O => None
  | S fuel =>
      match buffer self with
      | [] => Some ([], self)
      | _ :: _ =>
          match loop_body now self with
          | Break self => Some ([], self)
          | Continue appended self =>
              match parse_loop fuel now self with
              | Some (messages, self) => Some (appended ++ messages, self)
              | None => None
              end
          end
      end
  end.

(** [self] with [data] appended to its buffer: [self.buffer.extend(data)]. *)
Definition extend (self : RFExplorerSerial) (data : list byte) : RFExplorerSerial :=
  set_buffer self (buffer self ++ data).

(** [read_data] on an open port: [data] is what [serial.read] returned (the
    empty list when nothing was waiting).  The buffer length bounds the
    number of iterations. *)
Definition read_data_fuel (fuel : nat) (now : Z) (data : list byte)
    (self : RFExplorerSerial) : option (list message * RFExplorerSerial) :=
  parse_loop fuel now (extend self data).

Definition read_data (now : Z) (data : list byte) (self : RFExplorerSerial)
    : option (list message * RFExplorerSerial) :=
  read_data_fuel (S (length (buffer self ++ data))) now data self.

(** ** The bridge: client sessions and baselines *)

(** The per-client dictionary built by [handler]. *)
Record ClientSettings := mkSettings {
  use_delta_encoding : bool;
  delta_threshold_db : Q;
  baseline_refresh_interval : Q;
  last_baseline_time : Q
}.

(** The fields of [WebSocketBridge] the encoder works on; both
    dictionaries are keyed by [id(websocket)]. *)
Record WebSocketBridge := mkBridge {
  rf_explorer : RFExplorerSerial;
  clients : gset Z;
  client_settings : gmap Z ClientSettings;
  baseline_spectrum : gmap Z (list SweepData)
}.

Definition set_rf_explorer (self : WebSocketBridge) (r : RFExplorerSerial) :=
  mkBridge r (clients self) (client_settings self) (baseline_spectrum self).
Definition set_client_settings (self : WebSocketBridge) (m : gmap Z ClientSettings) :=
  mkBridge (rf_explorer self) (clients self) m (baseline_spectrum self).
Definition set_baseline_spectrum (self : WebSocketBridge) (m : gmap Z (list SweepData)) :=
  mkBridge (rf_explorer self) (clients self) (client_settings self) m.

(** Exceptions that leave the modelled functions. *)
Inductive exn := IndexError | KeyError.

Inductive outcome (A : Type) :=
  | Returned (a : A)
  | Raised (e : exn).
Arguments Returned {A} a.
Arguments Raised {A} e.

(** [handler], up to the first message: the session is registered with
    delta encoding off, threshold 1.0 dB, refresh every 60 s. *)
Definition connect (now : Q) (client_id : Z) (self : WebSocketBridge) : WebSocketBridge :=
  mkBridge (rf_explorer self)
           ({[client_id]} ∪ clients self)
           (<[client_id := mkSettings false 1 (60 # 1) now]> (client_settings self))
           (baseline_spectrum self).

(** The [finally] block of [handler]. *)
Definition disconnect (client_id : Z) (self : WebSocketBridge) : WebSocketBridge :=
  mkBridge (rf_explorer self)
           (clients self ∖ {[client_id]})
           (delete client_id (client_settings self))
           (delete client_id (baseline_spectrum self)).

(** A decoded control message, by its ['type']; [Unrecognised] covers every
    other type and text that is not JSON.  JSON text that is not an object
    has no counterpart here. *)
Inductive client_message :=
  | Command (cmd : string)
  | SetFrequency (start_mhz end_mhz : Q)
  | Start
  | Stop
  | EnableDeltaEncoding (enabled : bool)
  | RequestBaseline
  | Unrecognised.

(** [set_frequency_range], as far as the state goes: the two assignments
    that follow the command.  The text of the command is
    [frequency_command] below; the conversions [int(start_mhz * 1000)] and
    [int((end_mhz - start_mhz) * 1000)] before it, which raise on a
    product that is not finite, are not modelled. *)
Definition set_frequency_range (start_mhz end_mhz : Q) (r : RFExplorerSerial)
    : RFExplorerSerial :=
  mkSerial (mkSweepConfig start_mhz end_mhz (steps (config r)) (rbw_khz (config r)))
           (buffer r).

(** [handle_client_message]: the effect on the bridge of a message whose
    command, if it sends one, is written without an exception.  Writing
    ['use_delta_encoding'] for an id without a session is a [KeyError]. *)
Definition handle_client_message (client_id : Z) (msg : client_message)
    (self : WebSocketBridge) : outcome unit * WebSocketBridge :=
  match msg with
  | Command _ | Start | Stop | Unrecognised => (Returned (), self)
  | SetFrequency start_mhz end_mhz =>
      (Returned (),
       set_rf_explorer self (set_frequency_range start_mhz end_mhz (rf_explorer self)))
  | EnableDeltaEncoding enabled =>
      match client_settings self !! client_id with
      | Some s =>
          (Returned (),
           set_client_settings self
             (<[client_id := mkSettings enabled (delta_threshold_db s)
                               (baseline_refresh_interval s) (last_baseline_time s)]>
                (client_settings self)))
      | None => (Raised KeyError, self)
      end
  | RequestBaseline =>
      (Returned (), set_baseline_spectrum self (delete client_id (baseline_spectrum self)))
  end.

(** ** [_generate_delta_sweep] *)

(** One entry of ['deltas']: [{'index': _, 'frequency': _, 'amplitude': _}]. *)
Record DeltaPoint := mkDelta {
  index : nat;
  delta_frequency : Q;
  delta_amplitude : Q
}.

(** What [broadcast] serialises for one client. *)
Inductive encoded :=
  | Plain (m : message)
      (* the message as it came from the parser *)
  | FullSweep (timestamp : Z) (config : SweepConfig) (data : list SweepData)
      (* [{**full_sweep, 'baseline': True, 'encoding': 'full'}] *)
  | DeltaSweep (timestamp : Z) (config : SweepConfig) (deltas : list DeltaPoint)
               (baseline_age : Q) (compression_ratio : Q).
      (* [{'type': 'sweep', ..., 'encoding': 'delta', ...}] *)

(** [settings.get(key, default)] on [self.client_settings.get(client_id, {})]. *)
Definition setting {A} (field : ClientSettings -> A) (default : A)
    (settings : option ClientSettings) : A :=
  match settings with Some s => field s | None => default end.

Definition delta_of (i : nat) (point : SweepData) : DeltaPoint :=
  mkDelta i (frequency point) (amplitude point).

(** The loop over [enumerate(full_sweep['data'])], from index [i] on. *)
Fixpoint generate_deltas (threshold : Q) (baseline : list SweepData) (i : nat)
    (data : list SweepData) : list DeltaPoint :=
  match data with
  | [] => []
  | point :: rest =>
      let deltas := generate_deltas threshold baseline (S i) rest in
      match baseline !! i with
      | None => delta_of i point :: deltas           (* i >= len(baseline) *)
      | Some b =>
          let amp_diff := Qabs (amplitude point - amplitude b) in
          if Qle_bool threshold amp_diff               (* amp_diff >= threshold *)
          then delta_of i point :: deltas
          else deltas
      end
  end.

(** The loop [for delta in deltas: baseline[delta['index']] = {...}] on the
    list object stored for the client: an index past the end raises
    [IndexError], and the assignments already made stay. *)
Fixpoint update_baseline (baseline : list SweepData) (deltas : list DeltaPoint)
    : outcome unit * list SweepData :=
  match deltas with
  | [] => (Returned (), baseline)
  | delta :: rest =>
      if index delta <? length baseline
      then update_baseline
             (<[index delta := mkSweepData (delta_frequency delta) (delta_amplitude delta)]>
                baseline)
             rest
      else (Raised IndexError, baseline)
  end.

(** [compression_ratio], from the two list lengths. *)
Definition compression_ratio_of (total_count delta_count : nat) : Q :=
  let original_size := Z.of_nat (total_count * 16) in
  let delta_size := Z.of_nat (delta_count * 20) in
  if (0 <? original_size)%Z
  then ((1 - inject_Z delta_size / inject_Z original_size) * (100 # 1))%Q
  else 0%Q.

(** [_generate_delta_sweep(client_id, full_sweep)], where [full_sweep] is a
    sweep dictionary given by its fields and [current_time] is the reading
    of [time.time()]. *)
Definition _generate_delta_sweep (current_time : Q) (client_id : Z)
    (timestamp : Z) (cfg : SweepConfig) (data : list SweepData)
    (self : WebSocketBridge) : outcome encoded * WebSocketBridge :=
  let settings := client_settings self !! client_id in
  let threshold := setting delta_threshold_db 1%Q settings in
  let last_baseline_time := setting last_baseline_time 0%Q settings in
  let refresh_interval := setting baseline_refresh_interval (60 # 1)%Q settings in
  let needs_refresh :=
    negb (Qle_bool (current_time - last_baseline_time) refresh_interval) in
  match baseline_spectrum self !! client_id, needs_refresh with
  | Some baseline, false =>
      let deltas := generate_deltas threshold baseline 0 data in
      let '(updated, baseline) := update_baseline baseline deltas in
      let self :=
        set_baseline_spectrum self (<[client_id := baseline]> (baseline_spectrum self)) in
      match updated with
      | Raised e => (Raised e, self)
      | Returned _ =>
          (Returned (DeltaSweep timestamp cfg deltas
                       (current_time - last_baseline_time)
                       (compression_ratio_of (length data) (length deltas))),
           self)
      end
  | _, _ =>
      let self :=
        set_baseline_spectrum self (<[client_id := data]> (baseline_spectrum self)) in
      let self :=
        match settings with
        | Some s =>
            set_client_settings self
              (<[client_id := mkSettings (use_delta_encoding s) (delta_threshold_db s)
                                (baseline_refresh_interval s) current_time]>
                 (client_settings self))
        | None => self
        end in
      (Returned (FullSweep timestamp cfg data), self)
  end.

(** The body of the [for client in self.clients] loop of [broadcast]: the
    message encoded for one client. *)
Definition encode_for (current_time : Q) (client_id : Z) (m : message)
    (self : WebSocketBridge) : outcome encoded * WebSocketBridge :=
  let settings := client_settings self !! client_id in
  match m with
  | SweepMsg timestamp cfg data =>
      if setting use_delta_encoding false settings
      then _generate_delta_sweep current_time client_id timestamp cfg data self
      else (Returned (Plain m), self)
  | ConfigMsg _ => (Returned (Plain m), self)
  end.

(** The calls [read_loop] makes: each one with its clock reading and the
    bytes the port had for it. *)
Fixpoint feed (calls : list (Z * list byte)) (self : RFExplorerSerial)
    : option (list message * RFExplorerSerial) :=
  match calls with
  | [] => Some ([], self)
  | (now, data) :: rest =>
      match read_data now data self with
      | Some (messages, self) =>
          match feed rest self with
          | Some (more, self) => Some (messages ++ more, self)
          | None => None
          end
      | None => None
      end
  end.

(** A frame without the wall-clock stamp of the call that decoded it. *)
Definition erase_timestamp (m : message) : message :=
  match m with
  | SweepMsg _ cfg data => SweepMsg 0 cfg data
  | ConfigMsg cfg => ConfigMsg cfg
  end.

(** The [while] loop as a relation: [run_loop now self messages self']
    holds when the loop entered in [self] ends in [self'] having appended
    [messages]. *)
Inductive run_loop (now : Z) : RFExplorerSerial -> list message -> RFExplorerSerial -> Prop :=
  | run_empty self :
      buffer self = [] -> run_loop now self [] self
  | run_break self self' :
      buffer self <> [] -> loop_body now self = Break self' ->
      run_loop now self [] self'
  | run_continue self appended self1 messages self' :
      buffer self <> [] -> loop_body now self = Continue appended self1 ->
      run_loop now self1 messages self' ->
      run_loop now self (appended ++ messages) self'.

(** ** [broadcast] *)

(** [WebSocketBridge.__init__]: no client, no settings, no baseline. *)
Definition new_bridge (rf_explorer : RFExplorerSerial) : WebSocketBridge :=
  mkBridge rf_explorer ∅ ∅ ∅.

(** [broadcast]: the clients are visited in the order the set yields them;
    a visit is a client id with the reading of [time.time()] made while
    encoding for it.  The result is what was handed to [client.send], in
    order, whether an exception left the loop, and the bridge.  A failing
    [send] is caught and logged inside the loop and changes nothing; the
    encoder is called outside that [try]. *)
Fixpoint broadcast (visits : list (Z * Q)) (m : message) (self : WebSocketBridge)
    : list (Z * encoded) * outcome unit * WebSocketBridge :=
  match visits with
  | [] => ([], Returned (), self)
  | (client_id, current_time) :: rest =>
      match encode_for current_time client_id m self with
      | (Returned encoded_msg, self) =>
          let '(sent, result, self) := broadcast rest m self in
          ((client_id, encoded_msg) :: sent, result, self)
      | (Raised e, self) => ([], Raised e, self)
      end
  end.

(** ** Commands written to the port *)

(** The fields of [serial.Serial] the command path uses: the open flag and
    the bytes written so far.  [self.serial] is [None] until the port has
    been opened.  Errors of the device itself are not modelled. *)
Record Port := mkPort {
  is_open : bool;
  written : list byte
}.

(** [str.encode('ascii')]: [None] stands for the [UnicodeEncodeError]
    raised at the first character above 0x7f.  A [str] holds code points
    below 256 here. *)
Fixpoint encode_ascii (s : str) : option (list byte) :=
  match s with
  | [] => Some []
  | c :: r =>
      if nat_of_ascii c <? 128
      then (byte_of_ascii c ::.) <$> encode_ascii r
      else None
  end.

Inductive send_error := UnicodeEncodeError.

(** [send_command]: [cmd + '\r\n'] is encoded and written; nothing
    happens, and nothing is encoded, unless the port is there and open. *)
Definition send_command (cmd : str) (serial : option Port) : send_error + option Port :=
  match serial with
  | Some port =>
      if is_open port then
        match encode_ascii (cmd ++ ["013"%char; "010"%char]) with
        | Some data => inr (Some (mkPort (is_open port) (written port ++ data)))
        | None => inl UnicodeEncodeError
        end
      else inr serial
  | None => inr serial
  end.

Definition request_config : option Port -> send_error + option Port :=
  send_command (list_ascii_of_string "#0C0").
Definition start_sweep : option Port -> send_error + option Port :=
  send_command (list_ascii_of_string "#0C3").
Definition stop_sweep : option Port -> send_error + option Port :=
  send_command (list_ascii_of_string "#0CH").

Definition digit_char (d : Z) : ascii := ascii_of_nat (48 + Z.to_nat d).

(** The decimal digits of [n >= 0], most significant first; [fuel] bounds
    their number. *)
Fixpoint decimal_digits (fuel : nat) (n : Z) : str :=
  match fuel with
  | O => []
  | S fuel =>
      if (n <? 10)%Z then [digit_char n]
      else decimal_digits fuel (n / 10) ++ [digit_char (n mod 10)]
  end.

(** [str(n)] for [n >= 0]: a number below [2 ^ (log2 n + 1)] has at most
    [log2 n + 1] decimal digits. *)
Definition decimal (n : Z) : str := decimal_digits (S (Z.to_nat (Z.log2 n))) n.

Definition zfill (width : nat) (s : str) : str :=
  repeat "0"%char (width - length s) ++ s.

(** The most decimal digits the conversion of an [int] to text accepts
    (CPython 3.11, [sys.int_info.default_max_str_digits]). *)
Definition MAX_STR_DIGITS : nat := 4300.

(** [f'{k:07d}']: zeros up to seven characters; the sign, if any, comes
    first and counts in the width.  [None] stands for the [ValueError] of
    an integer with more than [MAX_STR_DIGITS] digits. *)
Definition format_07d (k : Z) : option str :=
  let digits := decimal (Z.abs k) in
  if MAX_STR_DIGITS <? length digits then None
  else Some (if (k <? 0)%Z then "-"%char :: zfill 6 digits else zfill 7 digits).

(** [f'#0C2-F:{start_khz:07d},{span_khz:07d}'], the command
    [set_frequency_range] sends once it has the two integers. *)
Definition frequency_command (start_khz span_khz : Z) : option str :=
  match format_07d start_khz, format_07d span_khz with
  | Some start, Some span =>
      Some (list_ascii_of_string "#0C2-F:" ++ start ++ ","%char :: span)
  | _, _ => None
  end.

(** * Notions used in the statements *)

(** Once the loop has ended, running it again on the bytes it kept does
    nothing, whatever the clock says. *)
Definition settled (self : RFExplorerSerial) : Prop :=
  forall now, run_loop now self [] self.

Definition stamp (now : Z) (m : message) : message :=
  match m with
  | SweepMsg _ cfg data => SweepMsg now cfg data
  | ConfigMsg cfg => ConfigMsg cfg
  end.

(** The number a string of decimal digits denotes. *)
Definition decimal_value (s : str) : Z :=
  fold_left (fun acc c => (acc * 10 + digit_value c)%Z) s 0%Z.

Definition all_digits (s : str) : Prop := Forall (fun c => is_digit c = true) s.

(** The frame of the specification's example: [$C01990004010000] and a
    carriage return, parsed under the default configuration. *)
Definition example_config_frame : RFExplorerSerial :=
  mkSerial default_config (list_byte_of_string "$C01990004010000" ++ [CR]).

(** A bound of the frequency range for which the axis is computed as in
    the program: a binary64 number of magnitude at most [2 ^ 52]. *)
Definition binary64_range (x : Q) : Prop :=
  (binary64 x == x)%Q /\ (Qabs x <= inject_Z (2 ^ 52))%Q.

(** The parser after [set_frequency_range(100.03125, 200.03125)], both
    binary64 numbers, holding a sweep frame of two samples. *)
Definition fine_start_frame : RFExplorerSerial :=
  set_frequency_range (3201 # 32) (6401 # 32)
    (mkSerial default_config [x24; x53; x02; x00; x00; x0a]).

(** The parser after [set_frequency_range(100.0, 452.5625)], both binary64
    numbers, holding a sweep frame of twelve samples. *)
Definition twelve_point_frame : RFExplorerSerial :=
  set_frequency_range (100 # 1) (7241 # 16)
    (mkSerial default_config ([x24; x53; x0c] ++ repeat x00 12 ++ [x0a])).

(** The payloads on which the [try] block does not reach the two
    assignments: bytes that are not ASCII ([UnicodeDecodeError]), fewer
    than 14 characters (the [if] is skipped), or a field [int] rejects
    ([ValueError]). *)
Definition malformed (payload : list byte) : Prop :=
  match decode_ascii payload with
  | None => True
  | Some s =>
      length s < 14 \/ py_int (take 7 s) = None \/ py_int (take 7 (drop 7 s)) = None
  end.

(** The characters [int] accepts anywhere in a decimal literal. *)
Definition int_char (c : ascii) : bool :=
  is_digit c || is_space c || Ascii.eqb c "_" || Ascii.eqb c "+" || Ascii.eqb c "-".

(** The point a delta entry carries. *)
Definition point_of (d : DeltaPoint) : SweepData :=
  mkSweepData (delta_frequency d) (delta_amplitude d).

(** The test the loop applies to the point at index [k]. *)
Definition included (threshold : Q) (baseline : list SweepData) (k : nat)
    (point : SweepData) : bool :=
  match baseline !! k with
  | None => true
  | Some b => Qle_bool threshold (Qabs (amplitude point - amplitude b))
  end.

(** Overwriting a baseline at the indices of a delta set, in order, with
    the values the entries carry: what a consumer does with ['deltas']. *)
Definition apply_deltas (baseline : list SweepData) (deltas : list DeltaPoint)
    : list SweepData :=
  fold_left (fun b d => <[index d := point_of d]> b) deltas baseline.

Definition threshold_of (self : WebSocketBridge) (client_id : Z) : Q :=
  setting delta_threshold_db 1%Q (client_settings self !! client_id).

Definition baseline_time_of (self : WebSocketBridge) (client_id : Z) : Q :=
  setting last_baseline_time 0%Q (client_settings self !! client_id).

(** [needs_refresh] as the encoder computes it. *)
Definition needs_refresh (current_time : Q) (self : WebSocketBridge) (client_id : Z) : bool :=
  negb (Qle_bool (current_time - baseline_time_of self client_id)
                 (setting baseline_refresh_interval (60 # 1)%Q
                          (client_settings self !! client_id))).

(** The delta branch is taken: the client has a baseline and it is not
    due for a refresh. *)
Definition delta_mode (current_time : Q) (client_id : Z) (self : WebSocketBridge)
    (baseline : list SweepData) : Prop :=
  baseline_spectrum self !! client_id = Some baseline /\
  needs_refresh current_time self client_id = false.

(** A bridge with one client, id 1: delta encoding on, the given threshold
    and stored baseline, refresh every 60 s, baseline taken at time 0. *)
Definition demo_bridge (threshold : Q) (baseline : list SweepData) : WebSocketBridge :=
  mkBridge (mkSerial default_config [])
           {[ 1%Z ]}
           {[ 1%Z := mkSettings true threshold (60 # 1) 0 ]}
           {[ 1%Z := baseline ]}.

(** The delta set as the specification describes it for thresholds at or
    below zero: an index is in the set exactly when the amplitude
    difference to the baseline is not zero. *)
Definition nonzero_differences (baseline data : list SweepData)
    (deltas : list DeltaPoint) : Prop :=
  forall i point b,
    data !! i = Some point -> baseline !! i = Some b ->
    (i ∈ index <$> deltas <-> ~ (Qabs (amplitude point - amplitude b) == 0)%Q).

(** The configuration in force after a list of frames: that of the last
    config frame, if there is one. *)
Definition last_config (cfg : SweepConfig) (messages : list message) : SweepConfig :=
  fold_left (fun c m => match m with ConfigMsg c' => c' | SweepMsg _ _ _ => c end)
            messages cfg.

(** The configuration a frame reports. *)
Definition config_of (m : message) : SweepConfig :=
  match m with SweepMsg _ cfg _ => cfg | ConfigMsg cfg => cfg end.

(** An amplitude a sweep frame can carry: minus half a byte value. *)
Definition sample_amplitude (a : Q) : Prop :=
  exists raw : Z, (0 <= raw <= 255)%Z /\ (a == - inject_Z raw / (2 # 1))%Q.

(** What a pass of the loop that goes round again has done with a buffer
    [b] that starts at a marker, under configuration [cfg]: dropped the
    marker of a frame of unknown type, or taken off a sweep frame, or
    taken off a config frame. *)
Inductive consumed (now : Z) (cfg : SweepConfig) (b : list byte)
    : list message -> RFExplorerSerial -> Prop :=
  | consumed_unknown :
      Byte.eqb (byte_at b 1) TAG_SWEEP = false ->
      Byte.eqb (byte_at b 1) TAG_CONFIG = false ->
      consumed now cfg b [] (mkSerial cfg (drop 1 b))
  | consumed_sweep n freq_step :
      n = Byte.to_nat (byte_at b 2) ->
      3 + n + 1 <= length b ->
      consumed now cfg b
        [SweepMsg now cfg (map (sweep_point cfg freq_step b) (seq 0 n))]
        (mkSerial cfg (drop (3 + n + 1) b))
  | consumed_config e cfg' :
      2 <= e < length b -> e < 100 ->
      steps cfg' = steps cfg -> rbw_khz cfg' = rbw_khz cfg ->
      consumed now cfg b [ConfigMsg cfg'] (mkSerial cfg' (drop (e + 1) b)).

(** Every connected client has a settings entry, and only connected
    clients have a baseline. *)
Definition sessions_consistent (self : WebSocketBridge) : Prop :=
  dom (client_settings self) = clients self /\
  dom (baseline_spectrum self) ⊆ clients self.

(** Writing an entry under a key, if there is one to write. *)
Definition store {A} (k : Z) (v : option A) (m : gmap Z A) : gmap Z A :=
  match v with Some a => <[k := a]> m | None => m end.

(** Text [encode('ascii')] accepts. *)
Definition is_ascii (s : str) : Prop := Forall (fun c => nat_of_ascii c < 128) s.

(** * The model on concrete inputs *)

(** [int] as CPython evaluates it: [int(' +1_2 ')] is 12,
    [int('-0000001')] is -1, [int('\t123456')] is 123456, and each of
    ['12_'], ['1__2'], ['_12'], ['+ 12'], ['199 000'], ['1e3'], [''] raises
    [ValueError]. *)
Example py_int_accepts :
  py_int (list_ascii_of_string " +1_2 ") = Some 12%Z /\
  py_int (list_ascii_of_string "-0000001") = Some (-1)%Z /\
  py_int ("009"%char :: list_ascii_of_string "123456") = Some 123456%Z /\
  py_int (list_ascii_of_string "0199000") = Some 199000%Z.
Proof. repeat split; reflexivity. Qed.

Example py_int_rejects :
  Forall (fun s => py_int (list_ascii_of_string s) = None)
         ["12_"; "1__2"; "_12"; "+ 12"; "199 000"; "1e3"; ""; "+"; "0x1A"; "12.0"]%string.
Proof. repeat constructor. Qed.

(** [round] goes to the even neighbour on a tie: [round(2.5)] is 2,
    [round(1.5)] is 2, [round(-0.25, 1)] is -0.2, [round(0.0015, 3)] is
    0.002 on the exact values. *)
Example py_round_ties :
  (py_round (5 # 2) 0 == 2 # 1)%Q /\ (py_round (3 # 2) 0 == 2 # 1)%Q /\
  (py_round (-1 # 4) 1 == -2 # 10)%Q /\ (py_round (15 # 10000) 3 == 2 # 1000)%Q.
Proof. repeat split; by vm_compute. Qed.

(** Two junk bytes, an unknown frame type, a sweep of two samples and the
    start of another frame: the junk is dropped, [$X] costs one byte at a
    time until the next marker, the sweep is decoded and [$S] is kept for
    the next call. *)
Example read_data_resynchronises :
  read_data 7
    (list_byte_of_string "ab$Xq$S" ++ [x02; x64; x65; x0a] ++ list_byte_of_string "$S")
    (mkSerial default_config [])
  = Some ([SweepMsg 7 default_config
             [mkSweepData (1990 # 1) (-50 # 1);
              mkSweepData (6000 # 1) (-101 # 2)]],
          mkSerial default_config (list_byte_of_string "$S")).
Proof. by vm_compute. Qed.

(** The same sweep cut in the middle of its payload: nothing comes out of
    the first call, the frame comes out of the second. *)
Example read_data_split_sweep :
  feed [(7%Z, list_byte_of_string "$S" ++ [x02; x64]); (7%Z, [x65; x0a])]
       (mkSerial default_config [])
  = read_data 7 (list_byte_of_string "$S" ++ [x02; x64; x65; x0a])
              (mkSerial default_config []).
Proof. reflexivity. Qed.

(** A config frame with no terminator in its first 100 bytes is cut after
    index 50; the 49 bytes left hold no marker and are dropped. *)
Example read_data_unterminated_config :
  read_data 7 (list_byte_of_string "$C" ++ repeat x78 98) (mkSerial default_config [])
  = Some ([ConfigMsg default_config], mkSerial default_config []).
Proof. reflexivity. Qed.

(** [f'{k:07d}'] as CPython prints it: ['0000000'], ['0199000'],
    ['10000000'], ['-000001'], ['-1000000']. *)
Example format_07d_prints :
  (fun k => string_of_list_ascii <$> format_07d k)
    <$> [0; 199000; 10000000; -1; -1000000]%Z
  = Some <$> ["0000000"; "0199000"; "10000000"; "-000001"; "-1000000"]%string.
Proof. reflexivity. Qed.

(** The command of [set_frequency_range] for 1990000 and 4010000 kHz. *)
Example frequency_command_prints :
  string_of_list_ascii <$> frequency_command 1990000 4010000
  = Some "#0C2-F:1990000,4010000"%string.
Proof. reflexivity. Qed.

(** Binary64 as CPython computes it: [0.1] is
    3602879701896397 / 2^55, [0.1 + 0.2] is 0.30000000000000004 and not
    the float [0.3], and [round(2.675, 2)] is 2.67, the float below 2.675
    being the one the literal denotes. *)
Example binary64_values :
  binary64 (1 # 10) = (3602879701896397 # 36028797018963968)%Q /\
  fadd (binary64 (1 # 10)) (binary64 (2 # 10)) = (1351079888211149 # 4503599627370496)%Q /\
  fadd (binary64 (1 # 10)) (binary64 (2 # 10)) <> binary64 (3 # 10) /\
  binary64 (2675 # 1000) = (3011782250804019 # 1125899906842624)%Q /\
  round_float (binary64 (2675 # 1000)) 2 = binary64 (267 # 100).
Proof. repeat split; by vm_compute. Qed.

(** A sweep of three samples between 1990.0 and [1990.0 + 4.011]: the
    middle frequency is 1992.005, where the exact midpoint 1992.0055
    would round to 1992.006, and the last one is 1994.011. *)
Example parse_sweep_binary64_axis :
  let end_mhz := fadd (1990 # 1) (binary64 (4011 # 1000)) in
  _parse_sweep 7 (mkSerial (mkSweepConfig (1990 # 1) end_mhz 112 (600 # 1))
                           [x24; x53; x03; x00; x01; x02; x0a])
  = (Some (SweepMsg 7 (mkSweepConfig (1990 # 1) end_mhz 112 (600 # 1))
             [mkSweepData (1990 # 1) 0;
              mkSweepData (binary64 (1992005 # 1000)) (-1 # 2);
              mkSweepData (binary64 (1994011 # 1000)) (-1 # 1)]),
     mkSerial (mkSweepConfig (1990 # 1) end_mhz 112 (600 # 1)) []) /\
  (py_round ((1990 # 1) + (1 # 1) * ((4011 # 1000) / (2 # 1))) 3 == 1992006 # 1000)%Q.
Proof. split; by vm_compute. Qed.

(** * Properties of the parser *)

(** A length test that cannot succeed is decided by [lia]. *)
Ltac ltb_false :=
  match goal with
  | |- context [if ?a <? ?b then _ else _] =>
      let E := fresh "Hltb" in
      destruct (a <? b) eqn:E; [apply Nat.ltb_lt in E; lia|]
  end.

(** ** Buffers and markers *)

Lemma set_buffer_id self : set_buffer self (buffer self) = self.
Proof. by destruct self. Qed.

Lemma extend_nil self : extend self [] = self.
Proof. unfold extend. rewrite app_nil_r. apply set_buffer_id. Qed.

Lemma extend_extend self d1 d2 : extend (extend self d1) d2 = extend self (d1 ++ d2).
Proof. unfold extend, set_buffer. simpl. by rewrite app_assoc. Qed.

Lemma byte_at_app_l b d i : i < length b -> byte_at (b ++ d) i = byte_at b i.
Proof. intros Hi. unfold byte_at. by rewrite app_nth1. Qed.

Lemma index_of_lt x b i : index_of x b = Some i -> i < length b.
Proof.
  revert i. induction b as [|y r IH]; intros i; simpl; [done|].
  destruct (Byte.eqb y x).
  - intros [= <-]. lia.
  - destruct (index_of x r) as [j|]; simpl; [|done].
    intros [= <-]. specialize (IH j eq_refl). lia.
Qed.

Lemma index_of_app_l x b d i : index_of x b = Some i -> index_of x (b ++ d) = Some i.
Proof.
  revert i. induction b as [|y r IH]; intros i; simpl; [done|].
  destruct (Byte.eqb y x); [done|].
  destruct (index_of x r) as [j|]; simpl; [|done].
  intros [= <-]. by rewrite (IH j eq_refl).
Qed.

Lemma index_of_app_r x b d :
  index_of x b = None ->
  index_of x (b ++ d) = (fun j => length b + j) <$> index_of x d.
Proof.
  induction b as [|y r IH]; simpl.
  - intros _. by destruct (index_of x d).
  - destruct (Byte.eqb y x); [done|].
    destruct (index_of x r); simpl; [done|]. intros _.
    rewrite IH by done. by destruct (index_of x d).
Qed.

Lemma index_of_drop x b i : index_of x b = Some i -> index_of x (drop i b) = Some 0.
Proof.
  revert i. induction b as [|y r IH]; intros i; simpl; [done|].
  destruct (Byte.eqb y x) eqn:E.
  - intros [= <-]. simpl. by rewrite E.
  - destruct (index_of x r) as [j|]; simpl; [|done].
    intros [= <-]. simpl. by apply IH.
Qed.

(** After the marker search the buffer is the old one cut at the marker,
    whichever branch of [if start_idx > 0] ran. *)
Lemma loop_body_marker now self i :
  index_of MARKER (buffer self) = Some i ->
  loop_body now self = dispatch now (set_buffer self (drop i (buffer self))).
Proof.
  intros Hi. unfold loop_body. rewrite Hi.
  destruct i; simpl; [|done]. by rewrite set_buffer_id.
Qed.

Lemma loop_body_no_marker now self :
  index_of MARKER (buffer self) = None ->
  loop_body now self = Break (set_buffer self []).
Proof. intros Hi. unfold loop_body. by rewrite Hi. Qed.

(** ** Progress of one iteration *)

Lemma parse_sweep_some now self m self' :
  _parse_sweep now self = (Some m, self') ->
  let n := Byte.to_nat (byte_at (buffer self) 2) in
  3 + n + 1 <= length (buffer self) /\
  self' = set_buffer self (drop (3 + n + 1) (buffer self)).
Proof.
  unfold _parse_sweep.
  destruct (length (buffer self) <? 4) eqn:E1; [done|].
  destruct (length (buffer self) <? 3 + _ + 1) eqn:E2; [done|].
  intros [= _ <-]. apply Nat.ltb_ge in E2. done.
Qed.

Lemma parse_sweep_none now self self' :
  _parse_sweep now self = (None, self') -> self' = self.
Proof.
  unfold _parse_sweep.
  destruct (length (buffer self) <? 4); [by intros [= <-]|].
  destruct (length (buffer self) <? 3 + _ + 1); [by intros [= <-]|done].
Qed.

Lemma find_eol_lt b i : find_eol b = Some i -> i < length b.
Proof.
  revert i. induction b as [|y r IH]; intros i; simpl; [done|].
  destruct (is_eol y).
  - intros [= <-]. lia.
  - destruct (find_eol r) as [j|]; simpl; [|done].
    intros [= <-]. specialize (IH j eq_refl). lia.
Qed.

(** The index [_parse_config] cuts at lies inside the buffer. *)
Lemma eol_index_lt b e : eol_index b = Some e -> e < length b.
Proof.
  unfold eol_index.
  destruct (find_eol _) as [i|] eqn:E.
  - intros [= <-]. apply find_eol_lt in E. rewrite length_take in E. lia.
  - destruct (length b <? 100) eqn:El; [done|].
    apply Nat.ltb_ge in El. intros [= <-]. lia.
Qed.

Lemma parse_config_some self m self' :
  _parse_config self = (Some m, self') ->
  exists e, eol_index (buffer self) = Some e /\
            buffer self' = drop (e + 1) (buffer self).
Proof.
  unfold _parse_config. destruct (eol_index (buffer self)) as [e|]; [|done].
  intros [= _ <-]. by exists e.
Qed.

Lemma parse_config_none self self' :
  _parse_config self = (None, self') -> self' = self.
Proof.
  unfold _parse_config. destruct (eol_index (buffer self)); [done|].
  by intros [= <-].
Qed.

Lemma dispatch_break now self self' :
  dispatch now self = Break self' -> self' = self.
Proof.
  unfold dispatch.
  destruct (length (buffer self) <? 3); [by intros [= <-]|].
  destruct (Byte.eqb _ TAG_SWEEP).
  - destruct (_parse_sweep now self) as [[m|] s] eqn:E; [done|].
    intros [= <-]. by apply parse_sweep_none in E.
  - destruct (Byte.eqb _ TAG_CONFIG); [|done].
    destruct (_parse_config self) as [[m|] s] eqn:E; [done|].
    intros [= <-]. by apply parse_config_none in E.
Qed.

Lemma dispatch_consumes now self appended self' :
  dispatch now self = Continue appended self' ->
  length (buffer self') < length (buffer self).
Proof.
  unfold dispatch.
  destruct (length (buffer self) <? 3) eqn:E3; [done|].
  apply Nat.ltb_ge in E3.
  destruct (Byte.eqb _ TAG_SWEEP).
  - destruct (_parse_sweep now self) as [[m|] s] eqn:E; [|done].
    intros [= _ <-]. apply parse_sweep_some in E as [Hlen ->].
    simpl. rewrite length_drop. lia.
  - destruct (Byte.eqb _ TAG_CONFIG).
    + destruct (_parse_config self) as [[m|] s] eqn:E; [|done].
      intros [= _ <-]. apply parse_config_some in E as (e & He & ->).
      rewrite length_drop. lia.
    + intros [= _ <-]. simpl. rewrite length_drop. lia.
Qed.

(** Every pass that goes round again has taken at least one byte off the
    buffer. *)
Lemma loop_body_consumes now self appended self' :
  loop_body now self = Continue appended self' ->
  length (buffer self') < length (buffer self).
Proof.
  destruct (index_of MARKER (buffer self)) as [i|] eqn:Hi.
  - rewrite (loop_body_marker _ _ _ Hi). intros H.
    apply dispatch_consumes in H. simpl in H. rewrite length_drop in H. lia.
  - by rewrite (loop_body_no_marker _ _ Hi).
Qed.

(** A pass that leaves the loop never grows the buffer. *)
Lemma loop_body_break_length now self self' :
  loop_body now self = Break self' ->
  length (buffer self') <= length (buffer self).
Proof.
  destruct (index_of MARKER (buffer self)) as [i|] eqn:Hi.
  - rewrite (loop_body_marker _ _ _ Hi). intros H.
    apply dispatch_break in H as ->. simpl. rewrite length_drop. lia.
  - rewrite (loop_body_no_marker _ _ Hi). intros [= <-]. simpl. lia.
Qed.

(** ** The loop ends *)

(** By induction on a bound for the buffer length: each round shortens the
    buffer, so a derivation of [run_loop] exists from every state. *)
Lemma run_loop_total now n :
  forall self, length (buffer self) <= n ->
  exists messages self', run_loop now self messages self'.
Proof.
  induction n as [|n IH]; intros self Hn.
  - exists [], self. apply run_empty.
    destruct (buffer self); [done | simpl in Hn; lia].
  - destruct (buffer self) as [|x r] eqn:Hb.
    + exists [], self. by apply run_empty.
    + destruct (loop_body now self) as [s|appended s] eqn:Hbody.
      * exists [], s. apply run_break; [by rewrite Hb | done].
      * pose proof (loop_body_consumes _ _ _ _ Hbody) as Hlt.
        destruct (IH s) as (ms & s' & Hrun); [rewrite Hb in Hlt; simpl in *; lia|].
        exists (appended ++ ms), s'.
        eapply run_continue; [by rewrite Hb | done | done].
Qed.

(** The bounded loop computes what the relation describes. *)
Lemma parse_loop_run now fuel :
  forall self messages self',
  parse_loop fuel now self = Some (messages, self') ->
  run_loop now self messages self'.
Proof.
  induction fuel as [|fuel IH]; intros self messages self'; simpl; [done|].
  destruct (buffer self) as [|x r] eqn:Hb.
  - intros [= <- <-]. by apply run_empty.
  - destruct (loop_body now self) as [s|appended s] eqn:Hbody.
    + intros [= <- <-]. apply run_break; [by rewrite Hb | done].
    + destruct (parse_loop fuel now s) as [[ms s'']|] eqn:Hrec; [|done].
      intros [= <- <-].
      eapply run_continue; [by rewrite Hb | done | by apply IH].
Qed.

(** Any bound above the buffer length is enough. *)
Lemma run_parse_loop now self messages self' :
  run_loop now self messages self' ->
  forall fuel, length (buffer self) < fuel ->
  parse_loop fuel now self = Some (messages, self').
Proof.
  induction 1 as [self Hb | self s Hb Hbody | self appended s ms s' Hb Hbody Hrun IH];
    intros [|fuel] Hfuel; try lia; simpl.
  - by rewrite Hb.
  - destruct (buffer self); [done|]. by rewrite Hbody.
  - pose proof (loop_body_consumes _ _ _ _ Hbody) as Hlt.
    destruct (buffer self); [done|]. rewrite Hbody.
    rewrite IH; [done | simpl in *; lia].
Qed.

Lemma run_loop_deterministic now self ms1 s1 ms2 s2 :
  run_loop now self ms1 s1 -> run_loop now self ms2 s2 -> ms1 = ms2 /\ s1 = s2.
Proof.
  intros H1 H2.
  pose proof (run_parse_loop _ _ _ _ H1 (S (length (buffer self))) ltac:(lia)) as E1.
  pose proof (run_parse_loop _ _ _ _ H2 (S (length (buffer self))) ltac:(lia)) as E2.
  rewrite E1 in E2. by injection E2.
Qed.

Lemma read_data_run now data self messages self' :
  read_data now data self = Some (messages, self') <->
  run_loop now (extend self data) messages self'.
Proof.
  unfold read_data, read_data_fuel. split.
  - apply parse_loop_run.
  - intros H. apply (run_parse_loop _ _ _ _ H). simpl. lia.
Qed.

(** C9. The frame-extraction loop of [read_data] terminates on every
    buffer: each pass through the loop body either leaves the loop or
    shortens the buffer by at least one byte, whatever the bytes are
    (unknown tags and marker-free data included), and the loop therefore
    returns a result within [len(buffer) + 1] passes; a larger bound gives
    the same result. *)
Theorem read_data_terminates (now : Z) (data : list byte) (self : RFExplorerSerial) :
  (forall s : RFExplorerSerial,
      match loop_body now s with
      | Break s' => length (buffer s') <= length (buffer s)
      | Continue _ s' => length (buffer s') < length (buffer s)
      end) /\
  (forall s : RFExplorerSerial,
      index_of MARKER (buffer s) = None -> loop_body now s = Break (set_buffer s [])) /\
  exists messages self',
    read_data now data self = Some (messages, self') /\
    forall fuel, length (buffer self ++ data) < fuel ->
                 read_data_fuel fuel now data self = Some (messages, self').
Proof.
  split; [|split].
  - intros s. destruct (loop_body now s) eqn:Hbody.
    + by eapply loop_body_break_length.
    + by eapply loop_body_consumes.
  - intros s. apply loop_body_no_marker.
  - destruct (run_loop_total now _ (extend self data) (Nat.le_refl _))
      as (ms & s' & Hrun).
    exists ms, s'. split.
    + by apply read_data_run.
    + intros fuel Hfuel. unfold read_data_fuel.
      by apply (run_parse_loop _ _ _ _ Hrun).
Qed.

(** ** Bytes that arrive later do not change a decision already taken *)

Lemma take_min_length (b : list byte) n : take (min (length b) n) b = take n b.
Proof.
  destruct (Nat.le_ge_cases (length b) n) as [H|H].
  - rewrite Nat.min_l by done. by rewrite !take_ge by lia.
  - by rewrite Nat.min_r by done.
Qed.

Lemma find_eol_app_l b d i : find_eol b = Some i -> find_eol (b ++ d) = Some i.
Proof.
  revert i. induction b as [|y r IH]; intros i; simpl; [done|].
  destruct (is_eol y); [done|].
  destruct (find_eol r) as [j|]; simpl; [|done].
  intros [= <-]. by rewrite (IH j eq_refl).
Qed.

Lemma eol_index_app b d e : eol_index b = Some e -> eol_index (b ++ d) = Some e.
Proof.
  unfold eol_index. rewrite !take_min_length, take_app.
  destruct (find_eol (take 100 b)) as [i|] eqn:E.
  - intros [= <-]. by rewrite (find_eol_app_l _ _ _ E).
  - destruct (length b <? 100) eqn:El; [done|].
    apply Nat.ltb_ge in El. intros [= <-].
    replace (100 - length b) with 0 by lia. rewrite take_0, app_nil_r, E.
    rewrite length_app.
    destruct (length b + length d <? 100) eqn:El'; [|done].
    apply Nat.ltb_lt in El'. lia.
Qed.

Lemma slice_app_l lo hi (b d : list byte) :
  hi <= length b -> slice lo hi (b ++ d) = slice lo hi b.
Proof.
  intros Hhi. unfold slice.
  destruct (Nat.le_gt_cases lo (length b)) as [Hlo|Hlo].
  - rewrite drop_app_le by done. rewrite take_app_le; [done|].
    rewrite length_drop. lia.
  - replace (hi - lo) with 0 by lia. by rewrite !take_0.
Qed.

Lemma parse_config_app self d m self' :
  _parse_config self = (Some m, self') ->
  _parse_config (extend self d) = (Some m, extend self' d).
Proof.
  unfold _parse_config. simpl.
  destruct (eol_index (buffer self)) as [e|] eqn:He; [|done].
  intros [= <- <-].
  rewrite (eol_index_app _ _ _ He).
  pose proof (eol_index_lt _ _ He) as Hlt.
  rewrite slice_app_l by lia.
  unfold extend, set_buffer. simpl. by rewrite drop_app_le by lia.
Qed.

Lemma sweep_point_app cfg freq_step b d i :
  3 + i < length b ->
  sweep_point cfg freq_step (b ++ d) i = sweep_point cfg freq_step b i.
Proof. intros Hi. unfold sweep_point. by rewrite byte_at_app_l. Qed.

Lemma parse_sweep_app now self d m self' :
  _parse_sweep now self = (Some m, self') ->
  _parse_sweep now (extend self d) = (Some m, extend self' d).
Proof.
  unfold _parse_sweep, extend, set_buffer. cbn [buffer config].
  destruct (length (buffer self) <? 4) eqn:E1; [done|].
  destruct (length (buffer self) <? 3 + _ + 1) eqn:E2; [done|].
  apply Nat.ltb_ge in E1, E2.
  intros [= <- <-].
  rewrite (byte_at_app_l _ _ 2) by lia.
  rewrite length_app.
  ltb_false.
  ltb_false.
  f_equal.
  - do 2 f_equal. apply map_ext_in. intros i Hi%in_seq.
    apply sweep_point_app. lia.
  - cbn [buffer config]. by rewrite drop_app_le by lia.
Qed.

Lemma dispatch_app now self d appended self' :
  dispatch now self = Continue appended self' ->
  dispatch now (extend self d) = Continue appended (extend self' d).
Proof.
  unfold dispatch. simpl.
  destruct (length (buffer self) <? 3) eqn:E3; [done|].
  apply Nat.ltb_ge in E3.
  rewrite length_app.
  ltb_false.
  rewrite (byte_at_app_l _ _ 1) by lia.
  destruct (Byte.eqb _ TAG_SWEEP).
  - destruct (_parse_sweep now self) as [[m|] s] eqn:E; [|done].
    intros [= <- <-]. by rewrite (parse_sweep_app _ _ _ _ _ E).
  - destruct (Byte.eqb _ TAG_CONFIG).
    + destruct (_parse_config self) as [[m|] s] eqn:E; [|done].
      intros [= <- <-]. by rewrite (parse_config_app _ _ _ _ E).
    + intros [= <- <-]. unfold extend, set_buffer. simpl.
      by rewrite drop_app_le by lia.
Qed.

Lemma loop_body_app_continue now self d appended self' :
  loop_body now self = Continue appended self' ->
  loop_body now (extend self d) = Continue appended (extend self' d).
Proof.
  destruct (index_of MARKER (buffer self)) as [i|] eqn:Hi.
  - rewrite (loop_body_marker _ _ _ Hi). intros H.
    rewrite (loop_body_marker _ (extend self d) i); [|by apply index_of_app_l].
    apply (dispatch_app _ _ d) in H. rewrite <- H. f_equal.
    unfold extend, set_buffer. simpl.
    pose proof (index_of_lt _ _ _ Hi). by rewrite drop_app_le by lia.
  - by rewrite (loop_body_no_marker _ _ Hi).
Qed.

(** When a pass leaves the loop, the next call starts from the bytes it
    kept: on the longer buffer the pass behaves as on the kept bytes
    followed by the new ones. *)
Lemma loop_body_app_break now self d self' :
  loop_body now self = Break self' ->
  buffer self' ++ d <> [] ->
  loop_body now (extend self d) = loop_body now (extend self' d).
Proof.
  destruct (index_of MARKER (buffer self)) as [i|] eqn:Hi.
  - rewrite (loop_body_marker _ _ _ Hi). intros H _.
    apply dispatch_break in H as ->.
    pose proof (index_of_lt _ _ _ Hi) as Hlt.
    rewrite (loop_body_marker _ (extend self d) i); [|by apply index_of_app_l].
    rewrite (loop_body_marker _ (extend (set_buffer self _) d) 0).
    2:{ simpl. apply index_of_app_l. by apply index_of_drop. }
    f_equal. unfold extend, set_buffer. simpl.
    by rewrite drop_app_le by lia.
  - rewrite (loop_body_no_marker _ _ Hi). intros [= <-]. simpl. intros Hd.
    destruct (index_of MARKER d) as [j|] eqn:Hj.
    + rewrite (loop_body_marker _ (extend self d) (length (buffer self) + j)).
      2:{ simpl. rewrite index_of_app_r by done. by rewrite Hj. }
      rewrite (loop_body_marker _ (extend (set_buffer self []) d) j); [|done].
      f_equal. unfold extend, set_buffer. simpl.
      by rewrite drop_app_add'.
    + rewrite !loop_body_no_marker; [done|done|].
      simpl. rewrite index_of_app_r by done. by rewrite Hj.
Qed.

Lemma run_loop_nonempty_inv now self messages self' :
  run_loop now self messages self' -> buffer self <> [] ->
  match loop_body now self with
  | Break s => messages = [] /\ self' = s
  | Continue appended s =>
      exists rest, messages = appended ++ rest /\ run_loop now s rest self'
  end.
Proof.
  destruct 1 as [self Hb | self s Hb Hbody | self appended s ms s' Hb Hbody Hrun];
    intros Hne; [done | by rewrite Hbody | rewrite Hbody; eauto].
Qed.

(** The chunking lemma: a loop run on [self], followed by a loop run on
    what it kept plus [d], is one loop run on [self] plus [d]. *)
Lemma run_loop_app now self ms1 s1 :
  run_loop now self ms1 s1 ->
  forall d ms2 s2,
  run_loop now (extend s1 d) ms2 s2 ->
  run_loop now (extend self d) (ms1 ++ ms2) s2.
Proof.
  induction 1 as [self Hb | self s Hb Hbody | self appended s ms s' Hb Hbody Hrun IH];
    intros d ms2 s2 H2.
  - done.
  - assert (buffer (extend self d) <> []) as Hne.
    { simpl. intros [? _]%app_eq_nil. done. }
    destruct (decide (buffer s ++ d = [])) as [Hnil|Hnn].
    + apply app_eq_nil in Hnil as [Hs ->].
      rewrite extend_nil in *.
      inversion H2; subst; try congruence.
      by apply run_break.
    + pose proof (loop_body_app_break _ _ d _ Hbody Hnn) as Heq.
      apply run_loop_nonempty_inv in H2; [|done].
      destruct (loop_body now (extend s d)) as [s3|appended s3] eqn:E.
      * destruct H2 as [-> ->]. apply run_break; [done | by rewrite Heq].
      * destruct H2 as (rest & -> & Hrest). simpl.
        eapply run_continue; [done | by rewrite Heq | done].
  - rewrite <- app_assoc. eapply run_continue.
    + simpl. intros [? _]%app_eq_nil. done.
    + by apply loop_body_app_continue.
    + by apply IH.
Qed.

(** ** The clock only shows in the stamp *)

Lemma erase_stamp now m : erase_timestamp (stamp now m) = erase_timestamp m.
Proof. by destruct m. Qed.

Lemma parse_sweep_now now now' self :
  _parse_sweep now' self =
  match _parse_sweep now self with
  | (Some m, s) => (Some (stamp now' m), s)
  | (None, s) => (None, s)
  end.
Proof.
  unfold _parse_sweep.
  destruct (length (buffer self) <? 4); [done|].
  by destruct (length (buffer self) <? 3 + _ + 1).
Qed.

Lemma parse_config_stamp self m s now :
  _parse_config self = (Some m, s) -> stamp now m = m.
Proof.
  unfold _parse_config. destruct (eol_index (buffer self)); [|done].
  by intros [= <- _].
Qed.

Lemma dispatch_now now now' self :
  dispatch now' self =
  match dispatch now self with
  | Break s => Break s
  | Continue appended s => Continue (stamp now' <$> appended) s
  end.
Proof.
  unfold dispatch.
  destruct (length (buffer self) <? 3); [done|].
  destruct (Byte.eqb _ TAG_SWEEP).
  - rewrite (parse_sweep_now now now').
    by destruct (_parse_sweep now self) as [[m|] s].
  - destruct (Byte.eqb _ TAG_CONFIG); [|done].
    destruct (_parse_config self) as [[m|] s] eqn:E; [|done].
    simpl. by rewrite (parse_config_stamp _ _ _ _ E).
Qed.

Lemma loop_body_now now now' self :
  loop_body now' self =
  match loop_body now self with
  | Break s => Break s
  | Continue appended s => Continue (stamp now' <$> appended) s
  end.
Proof.
  destruct (index_of MARKER (buffer self)) as [i|] eqn:Hi.
  - rewrite !(loop_body_marker _ _ _ Hi). apply dispatch_now.
  - by rewrite !(loop_body_no_marker _ _ Hi).
Qed.

Lemma run_loop_now now now' self messages self' :
  run_loop now self messages self' ->
  run_loop now' self (stamp now' <$> messages) self'.
Proof.
  induction 1 as [self Hb | self s Hb Hbody | self appended s ms s' Hb Hbody Hrun IH].
  - by apply run_empty.
  - apply run_break; [done|]. by rewrite (loop_body_now now), Hbody.
  - rewrite fmap_app. eapply run_continue; [done| |done].
    by rewrite (loop_body_now now), Hbody.
Qed.

(** Frames decoded by a call carry that call's stamp. *)
Lemma run_loop_stamped now self messages self' :
  run_loop now self messages self' -> stamp now <$> messages = messages.
Proof.
  induction 1 as [self Hb | self s Hb Hbody | self appended s ms s' Hb Hbody Hrun IH];
    [done | done |].
  rewrite fmap_app, IH. f_equal.
  pose proof (loop_body_now now now self) as E. rewrite Hbody in E.
  by injection E.
Qed.

Lemma run_loop_settled now self messages self' :
  run_loop now self messages self' -> settled self'.
Proof.
  induction 1 as [self Hb | self s Hb Hbody | self appended s ms s' Hb Hbody Hrun IH];
    [by intros t; apply run_empty | | done].
  intros t. destruct (buffer s) as [|x r] eqn:Hs.
  - by apply run_empty.
  - apply run_break; [by rewrite Hs|].
    pose proof (loop_body_app_break _ _ [] _ Hbody) as Heq.
    rewrite !extend_nil in Heq.
    rewrite (loop_body_now now), <- Heq, Hbody; [done|].
    by rewrite Hs.
Qed.

(** ** Chunk boundaries *)

Lemma read_data_total now data self :
  exists messages self', read_data now data self = Some (messages, self').
Proof.
  destruct (run_loop_total now _ (extend self data) (Nat.le_refl _)) as (ms & s' & H).
  exists ms, s'. by apply read_data_run.
Qed.

Lemma feed_total calls :
  forall self, exists messages self', feed calls self = Some (messages, self').
Proof.
  induction calls as [|[now data] rest IH]; intros self; simpl; [by eauto|].
  destruct (read_data_total now data self) as (ms & s1 & ->).
  destruct (IH s1) as (more & s2 & ->). eauto.
Qed.

(** From a settled state, a sequence of calls is one loop run over all the
    bytes, up to the stamps. *)
Lemma feed_run now calls :
  forall self messages self',
  settled self ->
  feed calls self = Some (messages, self') ->
  run_loop now (extend self (concat calls.*2)) (stamp now <$> messages) self'.
Proof.
  induction calls as [|[t data] rest IH]; intros self messages self' Hset; simpl.
  - intros [= <- <-]. rewrite extend_nil. apply Hset.
  - destruct (read_data t data self) as [[ms s1]|] eqn:E1; [|done].
    destruct (feed rest s1) as [[more s2]|] eqn:E2; [|done].
    intros [= <- <-]. apply read_data_run in E1.
    rewrite fmap_app, <- extend_extend.
    apply (run_loop_app _ _ _ s1); [by apply (run_loop_now t)|].
    apply IH; [by eapply run_loop_settled | done].
Qed.

Lemma feed_stamped now calls :
  forall self messages self',
  Forall (fun call => call.1 = now) calls ->
  feed calls self = Some (messages, self') ->
  stamp now <$> messages = messages.
Proof.
  induction calls as [|[t data] rest IH]; intros self messages self' Hall; simpl.
  - by intros [= <- _].
  - destruct (read_data t data self) as [[ms s1]|] eqn:E1; [|done].
    destruct (feed rest s1) as [[more s2]|] eqn:E2; [|done].
    intros [= <- _]. apply Forall_cons in Hall as [Ht Hall]. simpl in Ht. subst t.
    apply read_data_run in E1. rewrite fmap_app.
    by rewrite (run_loop_stamped _ _ _ _ E1), (IH _ _ _ Hall E2).
Qed.

(** C1. Feeding a byte sequence to the parser in one [read_data] call or
    split at arbitrary places over several calls gives the same frames:
    both runs return, they leave the parser in the same state (same kept
    bytes, same configuration), and their frame sequences are equal once
    the wall-clock stamp of the decoding call is set aside; when every call
    reads the same clock value the sequences are equal as they are.  The
    parser may start from any state. *)
Theorem read_data_chunk_invariant (now : Z) (call : Z * list byte)
    (calls : list (Z * list byte)) (self : RFExplorerSerial) :
  exists split_frames once_frames self',
    feed (call :: calls) self = Some (split_frames, self') /\
    read_data now (concat (call :: calls).*2) self = Some (once_frames, self') /\
    erase_timestamp <$> split_frames = erase_timestamp <$> once_frames /\
    (Forall (fun c => c.1 = now) (call :: calls) -> split_frames = once_frames).
Proof.
  destruct (feed_total (call :: calls) self) as (ms & s' & Hfeed).
  exists ms, (stamp now <$> ms), s'. split; [done|].
  assert (run_loop now (extend self (concat (call :: calls).*2)) (stamp now <$> ms) s')
    as Hrun.
  { destruct call as [t data]. simpl in Hfeed |- *.
    destruct (read_data t data self) as [[m1 s1]|] eqn:E1; [|done].
    destruct (feed calls s1) as [[more s2]|] eqn:E2; [|done].
    injection Hfeed as <- <-. apply read_data_run in E1.
    rewrite fmap_app, <- extend_extend.
    apply (run_loop_app _ _ _ s1); [by apply (run_loop_now t)|].
    apply feed_run; [by eapply run_loop_settled | done]. }
  split; [by apply read_data_run|]. split.
  - rewrite <- list_fmap_compose. apply list_fmap_ext. intros i m _. simpl.
    by rewrite erase_stamp.
  - intros Hall. symmetry. by eapply feed_stamped.
Qed.

(** ** Rounding *)

Lemma round_half_even_comp (x y : Q) :
  (x == y)%Q -> round_half_even x = round_half_even y.
Proof.
  intros E. unfold round_half_even.
  rewrite (Qfloor_comp _ _ E).
  assert (((x - inject_Z (Qfloor y)) ?= (1 # 2))%Q
          = ((y - inject_Z (Qfloor y)) ?= (1 # 2))%Q) as ->; [|done].
  apply Qcompare_comp; [by rewrite E | done].
Qed.

Lemma py_round_comp (x y : Q) n : (x == y)%Q -> py_round x n = py_round y n.
Proof.
  intros E. unfold py_round.
  rewrite (round_half_even_comp (x * _) (y * inject_Z (10 ^ Z.of_nat n))); [done|].
  by rewrite E.
Qed.

(** ** Binary64 rounding *)

Lemma binary64_comp (x y : Q) : (x == y)%Q -> binary64 x = binary64 y.
Proof. intros E. unfold binary64. by rewrite (Qred_complete x y E). Qed.

(** A number less than a half away from an integer rounds to it. *)
Lemma round_half_even_near (x : Q) (k : Z) :
  (Qabs (x - inject_Z k) < 1 # 2)%Q -> round_half_even x = k.
Proof.
  intros [Hlo Hhi]%Qabs_Qlt_condition.
  pose proof (Qfloor_le x) as Hf. pose proof (Qlt_floor x) as Hc.
  unfold round_half_even. set (f := Qfloor x) in *. clearbody f.
  assert (f = k \/ f = (k - 1)%Z) as [Hk | Hk].
  { assert (inject_Z f < inject_Z (k + 1))%Q as H1.
    { rewrite inject_Z_plus. change (inject_Z 1) with 1%Q. lra. }
    assert (inject_Z (k + -1) < inject_Z (f + 1))%Q as H2.
    { rewrite inject_Z_plus in Hc. rewrite !inject_Z_plus.
      change (inject_Z (-1)) with (-1 # 1)%Q. change (inject_Z 1) with 1%Q in *. lra. }
    rewrite <- Zlt_Qlt in H1, H2. lia. }
  - subst f. assert (((x - inject_Z k) ?= 1 # 2)%Q = Lt) as ->; [by apply Qlt_alt | done].
  - subst f.
    assert (inject_Z (k - 1) == inject_Z k - 1)%Q as E.
    { unfold Z.sub. by rewrite inject_Z_plus. }
    assert (((x - inject_Z (k - 1)) ?= 1 # 2)%Q = Gt) as ->; [|lia].
    apply Qgt_alt. rewrite E. lra.
Qed.

(** [round(x, 3)] gives [x] back when [x] is the float nearest to a number
    with three decimals and less than 0.0005 away from it. *)
Lemma round_float_near (x : Q) (k : Z) :
  (binary64 (inject_Z k / (1000 # 1)) == x)%Q ->
  (Qabs (x - inject_Z k / (1000 # 1)) < 1 # 2000)%Q ->
  (round_float x 3 == x)%Q.
Proof.
  intros Hb [Hlo Hhi]%Qabs_Qlt_condition. unfold round_float, py_round.
  change (inject_Z (10 ^ Z.of_nat 3)) with (1000 # 1)%Q.
  rewrite (round_half_even_near _ k); [done|].
  apply Qabs_Qlt_condition.
  assert (inject_Z k / (1000 # 1) == inject_Z k * (1 # 1000))%Q as E by (field; done).
  rewrite E in Hlo, Hhi. split; lra.
Qed.

Lemma fmul_0_l (y : Q) : fmul (inject_Z 0) y = 0%Q.
Proof. unfold fmul. rewrite (binary64_comp _ 0); [done|ring]. Qed.

(** Adding a float zero leaves a binary64 number as it is. *)
Lemma fadd_0_r (x : Q) n : (binary64 x == x)%Q -> round_float (fadd x 0) n = round_float x n.
Proof.
  intros Hx. unfold round_float, fadd. f_equal. apply py_round_comp.
  rewrite (binary64_comp _ x); [done|ring].
Qed.

(** ** [_parse_sweep] on a complete frame *)

(** Half a byte value is a binary64 number with one decimal: neither the
    division nor [round(_, 1)] changes it. *)
Lemma amplitude_exact (x : byte) :
  (round_float (fdiv (inject_Z (- Z.of_nat (Byte.to_nat x))) (2 # 1)) 1
   == - inject_Z (Z.of_nat (Byte.to_nat x)) / (2 # 1))%Q.
Proof. destruct x; by vm_compute. Qed.

Lemma sweep_data_lookup cfg freq_step b n i :
  i < n ->
  map (sweep_point cfg freq_step b) (seq 0 n) !! i = Some (sweep_point cfg freq_step b i).
Proof.
  intros Hi. change (map ?f ?l) with (f <$> l).
  rewrite list_lookup_fmap, lookup_seq_lt by done. done.
Qed.

Lemma index_of_head b : 0 < length b -> byte_at b 0 = MARKER -> index_of MARKER b = Some 0.
Proof.
  destruct b as [|x r]; unfold byte_at; simpl; [lia|]. by intros _ ->.
Qed.

(** When the subtraction and the division are exact, the last point of the
    axis is computed from [end] itself. *)
Lemma last_point_exact (start_mhz end_mhz : Q) (n : Z) :
  (1 < n)%Z ->
  (binary64 end_mhz == end_mhz)%Q ->
  (fsub end_mhz start_mhz == end_mhz - start_mhz)%Q ->
  (fdiv (end_mhz - start_mhz) (inject_Z (n - 1))
   == (end_mhz - start_mhz) / inject_Z (n - 1))%Q ->
  round_float (fadd start_mhz
                 (fmul (inject_Z (n - 1))
                    (fdiv (fsub end_mhz start_mhz) (inject_Z (n - 1))))) 3
  = round_float end_mhz 3.
Proof.
  intros Hn Hend Hsub Hdiv.
  assert (~ (inject_Z (n - 1) == 0)%Q) as Hnz by (unfold Qeq; simpl; lia).
  assert (fdiv (fsub end_mhz start_mhz) (inject_Z (n - 1))
          = fdiv (end_mhz - start_mhz) (inject_Z (n - 1))) as ->.
  { apply binary64_comp. by rewrite Hsub. }
  assert (fmul (inject_Z (n - 1)) (fdiv (end_mhz - start_mhz) (inject_Z (n - 1)))
          = fsub end_mhz start_mhz) as ->.
  { apply binary64_comp. rewrite Hdiv. by field. }
  unfold round_float. f_equal. apply py_round_comp.
  unfold fadd. rewrite (binary64_comp _ end_mhz); [done|]. rewrite Hsub. ring.
Qed.

(** C2 (amended). A complete sweep frame with sample count [N] at the
    head of the buffer is decoded into [N] points and exactly [3 + N + 1]
    bytes are taken off the buffer.  Point [i] has amplitude [-raw_i / 2]
    (neither the division nor the rounding to one decimal changes it) and
    frequency [round(start + i * ((end - start) / (N - 1)), 3)] when
    [N > 1], [round(start, 3)] when [N <= 1], each operation in binary64.
    The first frequency is [round(start, 3)]; it equals [start] when that
    is the float nearest to a number with three decimals, less than
    0.0005 away.  The last frequency is [round(end, 3)] when the
    difference [end - start] and the step [(end - start) / (N - 1)] are
    binary64 numbers, and then equals [end] under the same condition as
    for [start].  The read loop emits that frame when the buffer starts
    with the marker and the sweep tag. *)
Theorem parse_sweep_complete (now : Z) (self : RFExplorerSerial) (N : nat) :
  Byte.to_nat (byte_at (buffer self) 2) = N ->
  3 + N + 1 <= length (buffer self) ->
  binary64_range (start_freq_mhz (config self)) ->
  binary64_range (end_freq_mhz (config self)) ->
  exists data : list SweepData,
    _parse_sweep now self
      = (Some (SweepMsg now (config self) data),
         set_buffer self (drop (3 + N + 1) (buffer self))) /\
    length data = N /\
    length (drop (3 + N + 1) (buffer self)) + (3 + N + 1) = length (buffer self) /\
    (forall i, i < N ->
       exists p, data !! i = Some p /\
         (amplitude p ==
            - inject_Z (Z.of_nat (Byte.to_nat (byte_at (buffer self) (3 + i)))) / (2 # 1))%Q /\
         (N <= 1 -> frequency p = round_float (start_freq_mhz (config self)) 3) /\
         (1 < N ->
          frequency p =
            round_float
              (fadd (start_freq_mhz (config self))
                 (fmul (inject_Z (Z.of_nat i))
                    (fdiv (fsub (end_freq_mhz (config self)) (start_freq_mhz (config self)))
                          (inject_Z (Z.of_nat N - 1))))) 3)) /\
    (0 < N ->
       exists first,
         data !! 0 = Some first /\
         frequency first = round_float (start_freq_mhz (config self)) 3 /\
         (forall k,
            (binary64 (inject_Z k / (1000 # 1)) == start_freq_mhz (config self))%Q ->
            (Qabs (start_freq_mhz (config self) - inject_Z k / (1000 # 1)) < 1 # 2000)%Q ->
            (frequency first == start_freq_mhz (config self))%Q)) /\
    (1 < N ->
     (fsub (end_freq_mhz (config self)) (start_freq_mhz (config self))
      == end_freq_mhz (config self) - start_freq_mhz (config self))%Q ->
     (fdiv (end_freq_mhz (config self) - start_freq_mhz (config self))
           (inject_Z (Z.of_nat N - 1))
      == (end_freq_mhz (config self) - start_freq_mhz (config self))
         / inject_Z (Z.of_nat N - 1))%Q ->
       exists last,
         data !! (N - 1) = Some last /\
         frequency last = round_float (end_freq_mhz (config self)) 3 /\
         (forall k,
            (binary64 (inject_Z k / (1000 # 1)) == end_freq_mhz (config self))%Q ->
            (Qabs (end_freq_mhz (config self) - inject_Z k / (1000 # 1)) < 1 # 2000)%Q ->
            (frequency last == end_freq_mhz (config self))%Q)) /\
    (byte_at (buffer self) 0 = MARKER -> byte_at (buffer self) 1 = TAG_SWEEP ->
     loop_body now self
       = Continue [SweepMsg now (config self) data]
                  (set_buffer self (drop (3 + N + 1) (buffer self)))).
Proof.
  intros HN Hlen [Hstart _] [Hend _].
  set (cfg := config self) in *.
  set (freq_step :=
         if 1 <? N
         then fdiv (fsub (end_freq_mhz cfg) (start_freq_mhz cfg)) (inject_Z (Z.of_nat N - 1))
         else 0%Q).
  assert (_parse_sweep now self
          = (Some (SweepMsg now cfg (map (sweep_point cfg freq_step (buffer self)) (seq 0 N))),
             set_buffer self (drop (3 + N + 1) (buffer self)))) as Hparse.
  { unfold _parse_sweep. rewrite HN. fold cfg. fold freq_step.
    ltb_false.
    ltb_false.
    done. }
  assert (frequency (sweep_point cfg freq_step (buffer self) 0)
          = round_float (start_freq_mhz cfg) 3) as Hfirst.
  { unfold sweep_point. cbn [frequency]. change (Z.of_nat 0) with 0%Z.
    rewrite fmul_0_l. by apply fadd_0_r. }
  exists (map (sweep_point cfg freq_step (buffer self)) (seq 0 N)).
  split; [done|]. split; [by rewrite length_map, length_seq|].
  split; [rewrite length_drop; lia|]. split; [|split; [|split]].
  - intros i Hi. exists (sweep_point cfg freq_step (buffer self) i).
    split; [by apply sweep_data_lookup|]. split; [apply amplitude_exact|]. split.
    + intros HN1. by replace i with 0 by lia.
    + intros HN1. unfold sweep_point, freq_step. cbn [frequency].
      destruct (1 <? N) eqn:E; [done|]. apply Nat.ltb_ge in E. lia.
  - intros HN0. exists (sweep_point cfg freq_step (buffer self) 0).
    split; [by apply sweep_data_lookup|]. split; [done|].
    intros k Hk Hnear. rewrite Hfirst. by apply (round_float_near _ k).
  - intros HN1 Hsub Hdiv.
    assert (frequency (sweep_point cfg freq_step (buffer self) (N - 1))
            = round_float (end_freq_mhz cfg) 3) as Hlast.
    { unfold sweep_point, freq_step. cbn [frequency].
      destruct (1 <? N) eqn:E; [|apply Nat.ltb_ge in E; lia].
      replace (Z.of_nat (N - 1)) with (Z.of_nat N - 1)%Z by lia.
      apply last_point_exact; [lia|done..]. }
    exists (sweep_point cfg freq_step (buffer self) (N - 1)).
    split; [apply sweep_data_lookup; lia|]. split; [done|].
    intros k Hk Hnear. rewrite Hlast. by apply (round_float_near _ k).
  - intros H0 H1.
    rewrite (loop_body_marker _ _ 0); [|apply index_of_head; [lia | done]].
    rewrite drop_0, set_buffer_id. unfold dispatch.
    ltb_false.
    rewrite H1. simpl. by rewrite Hparse.
Qed.

(** The frame [$S 03 | 64 65 01 | 0a] under the default configuration,
    1990.0 to 6000.0 MHz: the step 2005.0 is exact and the last frequency
    is 6000.0. *)
Lemma parse_sweep_complete_witness :
  exists data : list SweepData,
    _parse_sweep 7 (mkSerial default_config [x24; x53; x03; x64; x65; x01; x0a])
      = (Some (SweepMsg 7 default_config data), mkSerial default_config []) /\
    length data = 3 /\
    exists last, data !! 2 = Some last /\ (frequency last == 6000 # 1)%Q.
Proof.
  destruct (parse_sweep_complete 7
              (mkSerial default_config [x24; x53; x03; x64; x65; x01; x0a]) 3
              eq_refl ltac:(simpl; lia)
              ltac:(split; by vm_compute) ltac:(split; by vm_compute))
    as (data & Hparse & Hlen & _ & _ & _ & Hlast & _).
  exists data. split; [exact Hparse|]. split; [exact Hlen|].
  destruct (Hlast ltac:(lia) ltac:(by vm_compute) ltac:(by vm_compute))
    as (last & Hl & _ & Hexact).
  exists last. split; [exact Hl|].
  apply (Hexact 6000000%Z); by vm_compute.
Defined.

(** C2, as stated.  With the range set to 100.03125 .. 200.03125 MHz the
    first point of a sweep is at 100.031 MHz, the start rounded to three
    decimals, not the start itself.  With the range 100.0 .. 452.5625 MHz
    and twelve samples the last point is at 452.563 MHz, which is neither
    the end nor the end rounded to three decimals (452.562): eleven times
    the binary64 step is 452.56250000000006 - 100.0. *)
Lemma sweep_ends_are_not_the_range_bounds :
  ~ (forall data self',
       _parse_sweep 7 fine_start_frame
       = (Some (SweepMsg 7 (config fine_start_frame) data), self') ->
       exists first,
         data !! 0 = Some first /\
         (frequency first == start_freq_mhz (config fine_start_frame))%Q) /\
  ~ (forall data self',
       _parse_sweep 7 twelve_point_frame
       = (Some (SweepMsg 7 (config twelve_point_frame) data), self') ->
       exists last,
         data !! 11 = Some last /\
         ((frequency last == end_freq_mhz (config twelve_point_frame))%Q \/
          (frequency last == round_float (end_freq_mhz (config twelve_point_frame)) 3)%Q)).
Proof.
  split; intros H.
  - destruct (H _ _ eq_refl) as (first & Hfirst & Hfreq).
    injection Hfirst as <-. vm_compute in Hfreq. discriminate Hfreq.
  - destruct (H _ _ eq_refl) as (last & Hlast & Hfreq).
    injection Hlast as <-. vm_compute in Hfreq. by destruct Hfreq.
Qed.

(** ** [int] on decimal digits *)

Lemma digit_not_space c : is_digit c = true -> is_space c = false.
Proof.
  unfold is_digit, is_space. intros [H1 H2]%andb_prop.
  apply Nat.leb_le in H1, H2.
  destruct (9 <=? _) eqn:E1, (_ <=? 13) eqn:E2, (_ =? 32) eqn:E3;
    try apply Nat.leb_le in E2; try apply Nat.eqb_eq in E3; simpl; try lia; done.
Qed.

Lemma digit_not_char c (x : ascii) :
  is_digit c = true -> is_digit x = false -> Ascii.eqb c x = false.
Proof.
  intros Hc Hx. destruct (Ascii.eqb_spec c x) as [->|]; [congruence | done].
Qed.

Lemma scan_digits_all_digits s :
  forall acc, all_digits s ->
  scan_digits acc false s
  = Some (fold_left (fun a c => (a * 10 + digit_value c)%Z) s acc).
Proof.
  induction s as [|c r IH]; intros acc Hall; simpl; [done|].
  apply Forall_cons in Hall as [Hc Hr]. rewrite Hc. by apply IH.
Qed.

(** On a non-empty string of decimal digits [int] is the decimal value
    (leading zeros included). *)
Lemma py_int_digits s :
  s <> [] -> all_digits s -> py_int s = Some (decimal_value s).
Proof.
  destruct s as [|c r]; [done|]. intros _ Hall.
  pose proof Hall as [Hc Hr]%Forall_cons.
  unfold py_int. simpl. rewrite (digit_not_space _ Hc).
  rewrite (digit_not_char c "-"), (digit_not_char c "+") by done.
  unfold scan_number. rewrite Hc.
  by rewrite scan_digits_all_digits.
Qed.

Lemma config_update_digits cfg payload s :
  decode_ascii payload = Some s ->
  14 <= length s ->
  all_digits (take 14 s) ->
  config_update cfg payload
  = mkSweepConfig
      (inject_Z (decimal_value (take 7 s)) / (1000 # 1))%Q
      (inject_Z (decimal_value (take 7 s)) / (1000 # 1)
       + inject_Z (decimal_value (take 7 (drop 7 s))) / (1000 # 1))%Q
      (steps cfg) (rbw_khz cfg).
Proof.
  intros Hdec Hlen Hall. unfold config_update, try_config. rewrite Hdec.
  destruct (14 <=? length s) eqn:E; [|apply Nat.leb_gt in E; lia].
  change 14 with (7 + 7) in Hall.
  rewrite <- (take_take_drop s 7 7) in Hall. apply Forall_app in Hall as [H1 H2].
  rewrite !py_int_digits; try done.
  - intros Hnil%(f_equal length).
    rewrite length_take, length_drop in Hnil. change (length []) with 0 in Hnil. lia.
  - intros Hnil%(f_equal length).
    rewrite length_take in Hnil. change (length []) with 0 in Hnil. lia.
Qed.

(** C3 (amended). A config frame whose ASCII payload has at least 14
    characters, the first 14 of them decimal digits, sets
    [start_freq_mhz] to the first seven digits (kHz) over 1000 and
    [end_freq_mhz] to that plus the next seven digits (kHz) over 1000; the
    frame is emitted with the new configuration and the buffer is cut after
    the terminator.  For the payload [01990004010000] the fields are
    [0199000] and [4010000]: start 199.000 MHz, span 4010.000 MHz, end
    4209.000 MHz. *)
Theorem parse_config_sets_range (self : RFExplorerSerial) (e : nat) (s : str) :
  eol_index (buffer self) = Some e ->
  decode_ascii (slice 2 e (buffer self)) = Some s ->
  14 <= length s ->
  all_digits (take 14 s) ->
  (exists cfg : SweepConfig,
     _parse_config self
       = (Some (ConfigMsg cfg), mkSerial cfg (drop (e + 1) (buffer self))) /\
     (start_freq_mhz cfg == inject_Z (decimal_value (take 7 s)) / (1000 # 1))%Q /\
     (end_freq_mhz cfg
      == start_freq_mhz cfg + inject_Z (decimal_value (take 7 (drop 7 s))) / (1000 # 1))%Q /\
     steps cfg = steps (config self) /\
     rbw_khz cfg = rbw_khz (config self)) /\
  (slice 2 16 (buffer example_config_frame) = list_byte_of_string "01990004010000" /\
   start_freq_mhz (config (_parse_config example_config_frame).2) == 199 # 1 /\
   end_freq_mhz (config (_parse_config example_config_frame).2) == 4209 # 1)%Q.
Proof.
  intros He Hdec Hlen Hall. split.
  - eexists. split; [|split; [|split; [|split]]].
    + unfold _parse_config. rewrite He.
      by rewrite (config_update_digits _ _ _ Hdec Hlen Hall).
    + done.
    + done.
    + done.
    + done.
  - split; [done|]. split; by vm_compute.
Qed.

Lemma parse_config_sets_range_witness :
  exists cfg : SweepConfig,
    _parse_config example_config_frame = (Some (ConfigMsg cfg), mkSerial cfg []) /\
    (start_freq_mhz cfg == inject_Z 199000 / (1000 # 1))%Q.
Proof.
  destruct (parse_config_sets_range example_config_frame 16
              (list_ascii_of_string "01990004010000")
              eq_refl eq_refl ltac:(simpl; lia)
              ltac:(repeat constructor))
    as [(cfg & Hparse & Hstart & _) _].
  exists cfg. split; [exact Hparse | exact Hstart].
Defined.

(** C3, as stated.  The example of the specification, as it is written
    there (end 600.000 MHz), does not hold: the second field of the payload is
    [4010000], not [0401000]. *)
Lemma example_config_frame_end_is_not_600 :
  ~ (start_freq_mhz (config (_parse_config example_config_frame).2) == 199 # 1 /\
     end_freq_mhz (config (_parse_config example_config_frame).2) == 600 # 1)%Q.
Proof. intros [_ H]. vm_compute in H. discriminate H. Qed.

(** ** Malformed config payloads *)

Lemma lstrip_nil s : lstrip s = [] -> Forall (fun c => int_char c = true) s.
Proof.
  induction s as [|c r IH]; simpl; [done|].
  destruct (is_space c) eqn:E; [|done].
  intros H. constructor; [|by apply IH].
  unfold int_char. rewrite E. by destruct (is_digit c).
Qed.

Lemma lstrip_cons s c r :
  lstrip s = c :: r ->
  (Forall (fun c => int_char c = true) (c :: r) -> Forall (fun c => int_char c = true) s).
Proof.
  induction s as [|x t IH]; simpl; [done|].
  destruct (is_space x) eqn:E.
  - intros H Hall. constructor; [|by apply IH].
    unfold int_char. rewrite E. by destruct (is_digit x).
  - by intros [= -> ->].
Qed.

Lemma scan_digits_chars s :
  forall acc prev_us z,
  scan_digits acc prev_us s = Some z -> Forall (fun c => int_char c = true) s.
Proof.
  induction s as [|c r IH]; intros acc prev_us z; simpl; [done|].
  destruct (is_digit c) eqn:Ed.
  - intros H. constructor; [by unfold int_char; rewrite Ed | by eapply IH].
  - destruct (Ascii.eqb c "_") eqn:Eu.
    + destruct prev_us; [done|]. intros H.
      constructor; [|by eapply IH].
      unfold int_char. rewrite Eu. by destruct (is_digit c), (is_space c).
    + destruct prev_us; [done|].
      destruct (is_space c) eqn:Es; [|done].
      destruct (lstrip r) eqn:El; [|done]. intros _.
      constructor; [by unfold int_char; rewrite Ed, Es | by apply lstrip_nil].
Qed.

Lemma scan_number_chars s z :
  scan_number s = Some z -> Forall (fun c => int_char c = true) s.
Proof.
  unfold scan_number. destruct s as [|c r]; [done|].
  destruct (is_digit c); [apply scan_digits_chars | done].
Qed.

(** [int] raises on any string with a character outside digits, white
    space, underscore and sign. *)
Lemma py_int_chars s z :
  py_int s = Some z -> Forall (fun c => int_char c = true) s.
Proof.
  unfold py_int. destruct (lstrip s) as [|c r] eqn:El; [done|].
  intros H. apply (lstrip_cons _ _ _ El).
  destruct (Ascii.eqb c "-") eqn:Em.
  - destruct (scan_number r) as [z'|] eqn:E; [|done].
    constructor; [|by eapply scan_number_chars].
    unfold int_char. rewrite Em. by destruct (is_digit c), (is_space c), (Ascii.eqb c "_"), (Ascii.eqb c "+").
  - destruct (Ascii.eqb c "+") eqn:Ep.
    + constructor; [|by eapply scan_number_chars].
      unfold int_char. rewrite Ep. by destruct (is_digit c), (is_space c), (Ascii.eqb c "_").
    + by eapply scan_number_chars.
Qed.

(** A letter, a dot or any other foreign character among the first 14
    makes the payload malformed. *)
Lemma malformed_foreign_character payload s c :
  decode_ascii payload = Some s ->
  c ∈ take 14 s -> int_char c = false ->
  malformed payload.
Proof.
  intros Hdec Hin Hc. unfold malformed. rewrite Hdec.
  change 14 with (7 + 7) in Hin.
  rewrite <- (take_take_drop s 7 7) in Hin. apply elem_of_app in Hin as [Hin|Hin].
  - right. left. destruct (py_int (take 7 s)) as [z|] eqn:E; [|done].
    apply py_int_chars in E. rewrite Forall_forall in E.
    specialize (E c Hin). congruence.
  - right. right. destruct (py_int (take 7 (drop 7 s))) as [z|] eqn:E; [|done].
    apply py_int_chars in E. rewrite Forall_forall in E.
    specialize (E c Hin). congruence.
Qed.

(** Malformed payloads are those on which the [try] block raises or skips
    the [if]. *)
Lemma malformed_iff cfg payload :
  malformed payload <->
  (exists e, try_config cfg payload = inl e) \/
  (exists s, decode_ascii payload = Some s /\ length s < 14).
Proof.
  unfold malformed, try_config.
  destruct (decode_ascii payload) as [s|]; [|split; eauto].
  destruct (14 <=? length s) eqn:E.
  - apply Nat.leb_le in E.
    destruct (py_int (take 7 s)) as [a|]; [|split; eauto].
    destruct (py_int (take 7 (drop 7 s))) as [b|]; [|split; eauto].
    split.
    + intros [H|[H|H]]; [lia | done | done].
    + intros [[e H]|(s' & [= <-] & H)]; [done | lia].
  - apply Nat.leb_gt in E. split; [|by left].
    intros _. right. by exists s.
Qed.

Lemma config_update_malformed cfg payload :
  malformed payload -> config_update cfg payload = cfg.
Proof.
  unfold malformed, config_update, try_config.
  destruct (decode_ascii payload) as [s|]; [|done].
  destruct (14 <=? length s) eqn:E; [|done].
  apply Nat.leb_le in E. intros [H|[H|H]]; [lia| |].
  - by rewrite H.
  - rewrite H. by destruct (py_int (take 7 s)).
Qed.

(** C4. A config frame with a malformed payload (not ASCII, shorter than
    14 characters, or with a field [int] rejects) raises nothing:
    [_parse_config] returns the config frame, the buffer is cut just after
    the terminator, and the shared configuration is the one it was, every
    field of it; the read loop appends that frame and goes on. *)
Theorem parse_config_malformed (self : RFExplorerSerial) (e : nat) :
  eol_index (buffer self) = Some e ->
  malformed (slice 2 e (buffer self)) ->
  _parse_config self
    = (Some (ConfigMsg (config self)),
       mkSerial (config self) (drop (e + 1) (buffer self))) /\
  length (drop (e + 1) (buffer self)) + (e + 1) = length (buffer self) /\
  (byte_at (buffer self) 0 = MARKER -> byte_at (buffer self) 1 = TAG_CONFIG ->
   3 <= length (buffer self) ->
   forall now,
     loop_body now self
       = Continue [ConfigMsg (config self)]
                  (mkSerial (config self) (drop (e + 1) (buffer self)))).
Proof.
  intros He Hbad.
  assert (_parse_config self
          = (Some (ConfigMsg (config self)),
             mkSerial (config self) (drop (e + 1) (buffer self)))) as Hparse.
  { unfold _parse_config. rewrite He. by rewrite config_update_malformed. }
  pose proof (eol_index_lt _ _ He) as Hlt.
  split; [done|]. split; [rewrite length_drop; lia|].
  intros H0 H1 Hlen now.
  rewrite (loop_body_marker _ _ 0); [|apply index_of_head; [lia | done]].
  rewrite drop_0, set_buffer_id. unfold dispatch.
  ltb_false.
  rewrite H1. simpl. by rewrite Hparse.
Qed.

(** The frame [$C0199000abcdefg] and a line feed: the second field is not a
    number. *)
Lemma parse_config_malformed_witness :
  _parse_config (mkSerial default_config (list_byte_of_string "$C0199000abcdefg" ++ [LF]))
  = (Some (ConfigMsg default_config), mkSerial default_config []).
Proof.
  apply (parse_config_malformed
           (mkSerial default_config (list_byte_of_string "$C0199000abcdefg" ++ [LF]))
           16 eq_refl).
  right. right. reflexivity.
Defined.

(** * Properties of the delta encoder *)

(** ** The delta set *)

Lemma point_of_delta_of i p : point_of (delta_of i p) = p.
Proof. by destruct p. Qed.

Lemma generate_deltas_cons threshold baseline i point rest :
  generate_deltas threshold baseline i (point :: rest)
  = (if included threshold baseline i point then [delta_of i point] else [])
    ++ generate_deltas threshold baseline (S i) rest.
Proof.
  simpl. unfold included. destruct (baseline !! i); [|done].
  by destruct (Qle_bool _ _).
Qed.

(** Every entry of the delta set is a point of the current sweep, at its
    index, that passed the test. *)
Lemma generate_deltas_elem threshold baseline data :
  forall i d,
  d ∈ generate_deltas threshold baseline i data ->
  i <= index d /\
  data !! (index d - i) = Some (point_of d) /\
  included threshold baseline (index d) (point_of d) = true.
Proof.
  induction data as [|p rest IH]; intros i d.
  - by intros ?%elem_of_nil.
  - rewrite generate_deltas_cons. intros [Hd|Hd]%elem_of_app.
    + destruct (included threshold baseline i p) eqn:E; [|by apply elem_of_nil in Hd].
      apply list_elem_of_singleton in Hd as ->. simpl.
      rewrite Nat.sub_diag. simpl. by destruct p.
    + apply IH in Hd as (Hle & Hlook & Hinc).
      split; [lia|]. split; [|done].
      replace (index d - i) with (S (index d - S i)) by lia. done.
Qed.

(** The touched indices are those of the points that passed the test. *)
Lemma generate_deltas_index threshold baseline data :
  forall i k,
  k ∈ index <$> generate_deltas threshold baseline i data <->
  i <= k /\ exists p, data !! (k - i) = Some p /\ included threshold baseline k p = true.
Proof.
  induction data as [|p rest IH]; intros i k.
  - simpl. split; [by intros ?%elem_of_nil | by intros (_ & q & ? & _)].
  - rewrite generate_deltas_cons, fmap_app, elem_of_app, IH. split.
    + intros [Hk|(Hle & q & Hq & Hinc)].
      * destruct (included threshold baseline i p) eqn:E; [|by apply elem_of_nil in Hk].
        apply list_elem_of_singleton in Hk as ->. simpl.
        split; [done|]. exists p. by rewrite Nat.sub_diag.
      * split; [lia|]. exists q. split; [|done].
        by replace (k - i) with (S (k - S i)) by lia.
    + intros (Hle & q & Hq & Hinc).
      destruct (decide (k = i)) as [->|Hne].
      * left. rewrite Nat.sub_diag in Hq. injection Hq as ->.
        rewrite Hinc. simpl. apply list_elem_of_singleton. done.
      * right. split; [lia|]. exists q. split; [|done].
        by replace (k - i) with (S (k - S i)) in Hq by lia.
Qed.

Lemma generate_deltas_length_le threshold baseline data :
  forall i, length (generate_deltas threshold baseline i data) <= length data.
Proof.
  induction data as [|p rest IH]; intros i; [done|].
  rewrite generate_deltas_cons, length_app. specialize (IH (S i)).
  destruct (included threshold baseline i p); simpl; lia.
Qed.

(** The delta set is listed by increasing index. *)
Lemma generate_deltas_sorted threshold baseline data :
  forall i, StronglySorted lt (index <$> generate_deltas threshold baseline i data).
Proof.
  induction data as [|p rest IH]; intros i; [constructor|].
  rewrite generate_deltas_cons.
  destruct (included threshold baseline i p); simpl; [|apply IH].
  constructor; [apply IH|].
  apply Forall_forall. intros k [Hle _]%generate_deltas_index. simpl. lia.
Qed.

(** ** The baseline update *)

Lemma apply_deltas_length deltas :
  forall baseline, length (apply_deltas baseline deltas) = length baseline.
Proof.
  induction deltas as [|d ds IH]; intros baseline; simpl; [done|].
  by rewrite IH, length_insert.
Qed.

Lemma update_baseline_length deltas :
  forall baseline, length (update_baseline baseline deltas).2 = length baseline.
Proof.
  induction deltas as [|d ds IH]; intros baseline; simpl; [done|].
  destruct (index d <? length baseline); [|done].
  by rewrite IH, length_insert.
Qed.

(** The encoder's loop returns exactly when every index is inside the
    baseline, and then it has applied the delta set. *)
Lemma update_baseline_in_range deltas :
  forall baseline,
  Forall (fun d => index d < length baseline) deltas ->
  update_baseline baseline deltas = (Returned (), apply_deltas baseline deltas).
Proof.
  induction deltas as [|d ds IH]; intros baseline Hall; simpl; [done|].
  apply Forall_cons in Hall as [Hd Hds].
  destruct (index d <? length baseline) eqn:E; [|apply Nat.ltb_ge in E; lia].
  apply IH. by rewrite length_insert.
Qed.

Lemma update_baseline_returned deltas :
  forall baseline updated,
  update_baseline baseline deltas = (Returned (), updated) ->
  updated = apply_deltas baseline deltas /\
  Forall (fun d => index d < length baseline) deltas.
Proof.
  induction deltas as [|d ds IH]; intros baseline updated; simpl.
  - by intros [= <-].
  - destruct (index d <? length baseline) eqn:E; [|done].
    apply Nat.ltb_lt in E. intros [-> Hall]%IH. split; [done|].
    constructor; [done|]. by rewrite length_insert in Hall.
Qed.

Lemma apply_deltas_untouched deltas :
  forall baseline k,
  k ∉ index <$> deltas -> apply_deltas baseline deltas !! k = baseline !! k.
Proof.
  induction deltas as [|d ds IH]; intros baseline k Hk; simpl; [done|].
  rewrite fmap_cons, not_elem_of_cons in Hk. destruct Hk as [Hne Hk].
  rewrite IH by done. by rewrite list_lookup_insert_ne.
Qed.

Lemma apply_deltas_app baseline ds1 ds2 :
  apply_deltas baseline (ds1 ++ ds2) = apply_deltas (apply_deltas baseline ds1) ds2.
Proof. unfold apply_deltas. by rewrite fold_left_app. Qed.

(** Each touched index is written once, with the current point. *)
Lemma apply_generate_touched threshold baseline0 data :
  forall i baseline d,
  d ∈ generate_deltas threshold baseline0 i data ->
  index d < length baseline ->
  apply_deltas baseline (generate_deltas threshold baseline0 i data) !! index d
  = Some (point_of d).
Proof.
  induction data as [|p rest IH]; intros i baseline d.
  - by intros ?%elem_of_nil.
  - rewrite generate_deltas_cons, apply_deltas_app. intros [Hd|Hd]%elem_of_app Hlt.
    + destruct (included threshold baseline0 i p) eqn:E; [|by apply elem_of_nil in Hd].
      apply list_elem_of_singleton in Hd as ->. simpl in *.
      rewrite apply_deltas_untouched.
      * rewrite list_lookup_insert_eq by done. by destruct p.
      * intros [Hle _]%generate_deltas_index. lia.
    + apply IH; [done|]. by rewrite apply_deltas_length.
Qed.

Lemma apply_deltas_out_of_range deltas :
  forall baseline,
  Forall (fun d => length baseline <= index d) deltas ->
  apply_deltas baseline deltas = baseline.
Proof.
  induction deltas as [|d ds IH]; intros baseline Hall; simpl; [done|].
  apply Forall_cons in Hall as [Hd Hds].
  rewrite list_insert_ge by done. by apply IH.
Qed.

(** Returning or raising, the loop leaves the list overwritten at the
    indices of the delta set that lie inside it: the entries are in
    increasing index order, so nothing in range follows the one that
    raises. *)
Lemma update_baseline_state deltas :
  forall baseline,
  StronglySorted lt (index <$> deltas) ->
  (update_baseline baseline deltas).2 = apply_deltas baseline deltas.
Proof.
  induction deltas as [|d ds IH]; intros baseline Hsorted; simpl; [done|].
  apply StronglySorted_inv in Hsorted as [Hds Hd].
  destruct (index d <? length baseline) eqn:E; [by apply IH|].
  apply Nat.ltb_ge in E. simpl.
  rewrite list_insert_ge by done. symmetry. apply apply_deltas_out_of_range.
  apply Forall_forall. intros d' Hd'. rewrite Forall_forall in Hd.
  specialize (Hd (index d') ltac:(by apply list_elem_of_fmap; exists d')). lia.
Qed.

(** ** [_generate_delta_sweep], branch by branch *)

Lemma generate_delta_sweep_delta current_time client_id timestamp cfg data self baseline :
  delta_mode current_time client_id self baseline ->
  _generate_delta_sweep current_time client_id timestamp cfg data self
  = let deltas := generate_deltas (threshold_of self client_id) baseline 0 data in
    let '(updated, baseline') := update_baseline baseline deltas in
    let self' :=
      set_baseline_spectrum self (<[client_id := baseline']> (baseline_spectrum self)) in
    match updated with
    | Raised e => (Raised e, self')
    | Returned _ =>
        (Returned (DeltaSweep timestamp cfg deltas
                     (current_time - baseline_time_of self client_id)
                     (compression_ratio_of (length data) (length deltas))),
         self')
    end.
Proof.
  intros [Hb Hfresh]. unfold _generate_delta_sweep. cbv zeta.
  fold (baseline_time_of self client_id).
  fold (needs_refresh current_time self client_id).
  fold (threshold_of self client_id).
  rewrite Hb, Hfresh. by destruct (update_baseline _ _) as [[u|e] b'].
Qed.

Lemma generate_delta_sweep_full current_time client_id timestamp cfg data self :
  baseline_spectrum self !! client_id = None \/
  needs_refresh current_time self client_id = true ->
  exists self',
    _generate_delta_sweep current_time client_id timestamp cfg data self
    = (Returned (FullSweep timestamp cfg data), self') /\
    baseline_spectrum self' !! client_id = Some data /\
    (forall s, client_settings self !! client_id = Some s ->
       client_settings self' !! client_id
       = Some (mkSettings (use_delta_encoding s) (delta_threshold_db s)
                          (baseline_refresh_interval s) current_time)).
Proof.
  intros Hcase. unfold _generate_delta_sweep. cbv zeta.
  fold (baseline_time_of self client_id).
  fold (needs_refresh current_time self client_id).
  assert (match baseline_spectrum self !! client_id,
                needs_refresh current_time self client_id with
          | Some _, false => False | _, _ => True end) as Hsel.
  { destruct Hcase as [-> | ->]; [done|].
    by destruct (baseline_spectrum self !! client_id). }
  destruct (baseline_spectrum self !! client_id) as [b|];
    destruct (needs_refresh current_time self client_id); try done;
    (eexists; split; [reflexivity|];
     destruct (client_settings self !! client_id) as [s|] eqn:Hs; simpl;
     (split; [by rewrite lookup_insert_eq|]);
     [intros s' [= <-]; by rewrite lookup_insert_eq | by intros s' [=]]).
Qed.

(** What a returned delta message tells about the step that produced it. *)
Lemma generate_delta_sweep_delta_inv current_time client_id timestamp cfg data self
    timestamp' cfg' deltas age ratio self' :
  _generate_delta_sweep current_time client_id timestamp cfg data self
  = (Returned (DeltaSweep timestamp' cfg' deltas age ratio), self') ->
  exists baseline,
    delta_mode current_time client_id self baseline /\
    deltas = generate_deltas (threshold_of self client_id) baseline 0 data /\
    Forall (fun d => index d < length baseline) deltas /\
    self' = set_baseline_spectrum self
              (<[client_id := apply_deltas baseline deltas]> (baseline_spectrum self)) /\
    timestamp' = timestamp /\ cfg' = cfg /\
    age = (current_time - baseline_time_of self client_id)%Q /\
    ratio = compression_ratio_of (length data) (length deltas).
Proof.
  intros H.
  destruct (baseline_spectrum self !! client_id) as [baseline|] eqn:Hb.
  2:{ destruct (generate_delta_sweep_full current_time client_id timestamp cfg data self)
        as (s & E & _); [by left|]. rewrite E in H. done. }
  destruct (needs_refresh current_time self client_id) eqn:Hr.
  { destruct (generate_delta_sweep_full current_time client_id timestamp cfg data self)
      as (s & E & _); [by right|]. rewrite E in H. done. }
  exists baseline. split; [done|].
  rewrite (generate_delta_sweep_delta _ _ _ _ _ _ baseline) in H by done.
  cbv zeta in H.
  destruct (update_baseline baseline _) as [[[]|e] updated] eqn:Hu; [|done].
  apply update_baseline_returned in Hu as [-> Hall].
  injection H as <- <- <- <- <- <-. done.
Qed.

Lemma generate_deltas_in_range threshold baseline data :
  length data <= length baseline ->
  Forall (fun d => index d < length baseline)
         (generate_deltas threshold baseline 0 data).
Proof.
  intros Hlen. apply Forall_forall. intros d (_ & Hlook & _)%generate_deltas_elem.
  apply lookup_lt_Some in Hlook. lia.
Qed.

(** In delta mode a sweep no longer than the baseline is always encoded. *)
Lemma generate_delta_sweep_returns current_time client_id timestamp cfg data self baseline :
  delta_mode current_time client_id self baseline ->
  length data <= length baseline ->
  let deltas := generate_deltas (threshold_of self client_id) baseline 0 data in
  _generate_delta_sweep current_time client_id timestamp cfg data self
  = (Returned (DeltaSweep timestamp cfg deltas
                 (current_time - baseline_time_of self client_id)
                 (compression_ratio_of (length data) (length deltas))),
     set_baseline_spectrum self
       (<[client_id := apply_deltas baseline deltas]> (baseline_spectrum self))).
Proof.
  intros Hmode Hlen deltas.
  rewrite (generate_delta_sweep_delta _ _ _ _ _ _ baseline) by done. cbv zeta.
  fold deltas. by rewrite update_baseline_in_range by by apply generate_deltas_in_range.
Qed.

(** What a delta-mode call leaves as the client's baseline, whatever its
    outcome. *)
Lemma delta_step_baseline current_time client_id timestamp cfg data self baseline :
  delta_mode current_time client_id self baseline ->
  baseline_spectrum
    (_generate_delta_sweep current_time client_id timestamp cfg data self).2
    !! client_id
  = Some (apply_deltas baseline
            (generate_deltas (threshold_of self client_id) baseline 0 data)).
Proof.
  intros Hmode.
  rewrite (generate_delta_sweep_delta _ _ _ _ _ _ baseline) by done. cbv zeta.
  pose proof (update_baseline_state
                (generate_deltas (threshold_of self client_id) baseline 0 data)
                baseline (generate_deltas_sorted _ _ _ _)) as Hstate.
  destruct (update_baseline baseline _) as [[u|e] b']; simpl in *;
    by rewrite lookup_insert_eq, Hstate.
Qed.

(** C8. Whenever the encoder emits a delta set, the set is listed by
    increasing index and the baseline it stores for the client is the prior
    baseline overwritten, in that order, at the indices of the set with
    the values the entries carry; at every
    touched index the new baseline holds the current sweep's point, and at
    every other index it holds what the prior baseline held.  The
    baselines of other clients are not touched. *)
Theorem delta_update_matches_sweep (current_time : Q) (client_id : Z)
    (timestamp : Z) (cfg : SweepConfig) (data : list SweepData)
    (self : WebSocketBridge) (timestamp' : Z) (cfg' : SweepConfig)
    (deltas : list DeltaPoint) (age ratio : Q) (self' : WebSocketBridge) :
  _generate_delta_sweep current_time client_id timestamp cfg data self
  = (Returned (DeltaSweep timestamp' cfg' deltas age ratio), self') ->
  exists baseline : list SweepData,
    baseline_spectrum self !! client_id = Some baseline /\
    baseline_spectrum self' !! client_id = Some (apply_deltas baseline deltas) /\
    StronglySorted lt (index <$> deltas) /\
    (forall d, d ∈ deltas -> data !! index d = Some (point_of d)) /\
    (forall k, k ∈ index <$> deltas ->
       is_Some (data !! k) /\ apply_deltas baseline deltas !! k = data !! k) /\
    (forall k, k ∉ index <$> deltas ->
       apply_deltas baseline deltas !! k = baseline !! k) /\
    (forall other, other <> client_id ->
       baseline_spectrum self' !! other = baseline_spectrum self !! other).
Proof.
  intros (baseline & [Hb Hfresh] & Hdeltas & Hrange & -> & _)%generate_delta_sweep_delta_inv.
  exists baseline. split; [done|]. split; [by simpl; rewrite lookup_insert_eq|].
  split; [rewrite Hdeltas; apply generate_deltas_sorted|].
  assert (forall d, d ∈ deltas -> data !! index d = Some (point_of d)) as Hcarry.
  { intros d Hd. rewrite Hdeltas in Hd.
    apply generate_deltas_elem in Hd as (_ & Hlook & _).
    by rewrite Nat.sub_0_r in Hlook. }
  split; [done|]. split; [|split].
  - intros k (d & -> & Hd)%list_elem_of_fmap.
    rewrite (Hcarry d Hd). split; [by eexists|].
    rewrite Forall_forall in Hrange. specialize (Hrange d Hd).
    rewrite Hdeltas in Hd |- *. by apply apply_generate_touched.
  - intros k Hk. by apply apply_deltas_untouched.
  - intros other Hne. simpl. by rewrite lookup_insert_ne.
Qed.

(** Baseline [-50.0, -60.0] dBm, sweep [-50.0, -63.0] dBm, threshold 1 dB:
    one delta, at index 1. *)
Lemma delta_update_matches_sweep_witness :
  exists baseline : list SweepData,
    baseline_spectrum
      (demo_bridge 1 [mkSweepData (1990 # 1) (-50 # 1); mkSweepData (6000 # 1) (-60 # 1)])
      !! 1%Z = Some baseline /\
    baseline_spectrum
      (_generate_delta_sweep 1 1 0 default_config
         [mkSweepData (1990 # 1) (-50 # 1); mkSweepData (6000 # 1) (-63 # 1)]
         (demo_bridge 1 [mkSweepData (1990 # 1) (-50 # 1); mkSweepData (6000 # 1) (-60 # 1)])).2
      !! 1%Z
    = Some (apply_deltas baseline [mkDelta 1 (6000 # 1) (-63 # 1)]).
Proof.
  destruct (delta_update_matches_sweep 1 1 0 default_config
              [mkSweepData (1990 # 1) (-50 # 1); mkSweepData (6000 # 1) (-63 # 1)]
              (demo_bridge 1 [mkSweepData (1990 # 1) (-50 # 1);
                              mkSweepData (6000 # 1) (-60 # 1)])
              0 default_config [mkDelta 1 (6000 # 1) (-63 # 1)]
              (1 - 0)%Q (compression_ratio_of 2 1)
              (_generate_delta_sweep 1 1 0 default_config
                 [mkSweepData (1990 # 1) (-50 # 1); mkSweepData (6000 # 1) (-63 # 1)]
                 (demo_bridge 1 [mkSweepData (1990 # 1) (-50 # 1);
                                 mkSweepData (6000 # 1) (-60 # 1)])).2
              ltac:(vm_compute; reflexivity))
    as (baseline & H1 & H2 & _).
  exists baseline. split; [exact H1 | exact H2].
Defined.

(** C10. In delta mode, a sweep with fewer points than the client's
    baseline is encoded, and the stored baseline keeps its length and its
    entries at every index from the sweep's length on.  More generally no
    delta step, whatever the sweep and whether it returns or raises,
    changes the length of the stored baseline: only the full branch
    replaces the list. *)
Theorem shorter_sweep_keeps_baseline_tail (current_time : Q) (client_id : Z)
    (timestamp : Z) (cfg : SweepConfig) (data : list SweepData)
    (self : WebSocketBridge) (baseline : list SweepData) :
  delta_mode current_time client_id self baseline ->
  length data < length baseline ->
  (exists deltas age ratio self' baseline',
     _generate_delta_sweep current_time client_id timestamp cfg data self
     = (Returned (DeltaSweep timestamp cfg deltas age ratio), self') /\
     baseline_spectrum self' !! client_id = Some baseline' /\
     length baseline' = length baseline /\
     forall k, length data <= k -> baseline' !! k = baseline !! k) /\
  (forall any_data : list SweepData,
     exists baseline',
       baseline_spectrum
         (_generate_delta_sweep current_time client_id timestamp cfg any_data self).2
         !! client_id = Some baseline' /\
       length baseline' = length baseline).
Proof.
  intros Hmode Hlen. split.
  - pose proof (generate_delta_sweep_returns _ _ timestamp cfg _ _ _ Hmode
                  (Nat.lt_le_incl _ _ Hlen)) as Hret.
    cbv zeta in Hret. do 4 eexists. eexists. split; [exact Hret|].
    split; [by simpl; rewrite lookup_insert_eq|].
    split; [apply apply_deltas_length|].
    intros k Hk. apply apply_deltas_untouched.
    intros (_ & p & Hp & _)%generate_deltas_index.
    apply lookup_lt_Some in Hp. lia.
  - intros any_data.
    rewrite (generate_delta_sweep_delta _ _ _ _ _ _ baseline) by done. cbv zeta.
    pose proof (update_baseline_length
                  (generate_deltas (threshold_of self client_id) baseline 0 any_data)
                  baseline) as Hl.
    destruct (update_baseline baseline _) as [[u|e] b']; simpl in *;
      exists b'; by rewrite lookup_insert_eq.
Qed.

(** Baseline of two points, sweep of one. *)
Lemma shorter_sweep_keeps_baseline_tail_witness :
  exists baseline',
    baseline_spectrum
      (_generate_delta_sweep 1 1 0 default_config [mkSweepData (1990 # 1) (-53 # 1)]
         (demo_bridge 1 [mkSweepData (1990 # 1) (-50 # 1);
                         mkSweepData (6000 # 1) (-60 # 1)])).2
      !! 1%Z = Some baseline' /\
    length baseline' = 2.
Proof.
  exact (proj2 (shorter_sweep_keeps_baseline_tail 1 1 0 default_config
                  [mkSweepData (1990 # 1) (-53 # 1)]
                  (demo_bridge 1 [mkSweepData (1990 # 1) (-50 # 1);
                                  mkSweepData (6000 # 1) (-60 # 1)])
                  [mkSweepData (1990 # 1) (-50 # 1); mkSweepData (6000 # 1) (-60 # 1)]
                  ltac:(split; vm_compute; reflexivity)
                  ltac:(simpl; lia))
               [mkSweepData (1990 # 1) (-53 # 1)]).
Defined.

(** ** Thresholds at or below zero *)

Lemma included_nonpositive threshold baseline k point :
  (threshold <= 0)%Q -> included threshold baseline k point = true.
Proof.
  intros Ht. unfold included. destruct (baseline !! k) as [b|]; [|done].
  apply Qle_bool_iff. eapply Qle_trans; [exact Ht | apply Qabs_nonneg].
Qed.

Lemma generate_deltas_all threshold baseline data :
  (threshold <= 0)%Q ->
  forall i,
  generate_deltas threshold baseline i data
  = imap (fun j point => delta_of (i + j) point) data.
Proof.
  intros Ht. induction data as [|p rest IH]; intros i; [done|].
  rewrite generate_deltas_cons, included_nonpositive by done.
  simpl. rewrite Nat.add_0_r. f_equal. rewrite IH.
  apply imap_ext. intros j q _. simpl. f_equal. lia.
Qed.

Lemma imap_delta_of_index data :
  forall i, index <$> imap (fun j point => delta_of (i + j) point) data
            = seq i (length data).
Proof.
  induction data as [|p rest IH]; intros i; [done|].
  simpl. rewrite Nat.add_0_r. f_equal. rewrite <- IH. f_equal.
  apply imap_ext. intros j q _. simpl. f_equal. lia.
Qed.

(** C5 (amended). In delta mode with [delta_threshold_db <= 0] and a
    baseline as long as the current sweep, the delta set holds every index
    of the sweep, in order, each with the current point: the test
    [amp_diff >= threshold] cannot fail, the indices whose difference is
    exactly zero included. *)
Theorem nonpositive_threshold_includes_all (current_time : Q) (client_id : Z)
    (timestamp : Z) (cfg : SweepConfig) (data : list SweepData)
    (self : WebSocketBridge) (baseline : list SweepData) :
  delta_mode current_time client_id self baseline ->
  (threshold_of self client_id <= 0)%Q ->
  length baseline = length data ->
  exists deltas age ratio self',
    _generate_delta_sweep current_time client_id timestamp cfg data self
    = (Returned (DeltaSweep timestamp cfg deltas age ratio), self') /\
    index <$> deltas = seq 0 (length data) /\
    (forall i point, data !! i = Some point -> deltas !! i = Some (delta_of i point)).
Proof.
  intros Hmode Ht Hlen.
  pose proof (generate_delta_sweep_returns _ _ timestamp cfg data _ _ Hmode) as Hret.
  cbv zeta in Hret. rewrite Hret by lia.
  do 4 eexists. split; [reflexivity|].
  rewrite generate_deltas_all by done. split; [apply imap_delta_of_index|].
  intros i point Hi. by rewrite list_lookup_imap, Hi.
Qed.

(** Threshold 0, the point unchanged at -50.0 dBm. *)
Lemma nonpositive_threshold_includes_all_witness :
  exists deltas age ratio self',
    _generate_delta_sweep 1 1 0 default_config [mkSweepData (1990 # 1) (-50 # 1)]
      (demo_bridge 0 [mkSweepData (1990 # 1) (-50 # 1)])
    = (Returned (DeltaSweep 0 default_config deltas age ratio), self') /\
    index <$> deltas = [0].
Proof.
  destruct (nonpositive_threshold_includes_all 1 1 0 default_config
              [mkSweepData (1990 # 1) (-50 # 1)]
              (demo_bridge 0 [mkSweepData (1990 # 1) (-50 # 1)])
              [mkSweepData (1990 # 1) (-50 # 1)]
              ltac:(split; vm_compute; reflexivity)
              ltac:(vm_compute; discriminate)
              eq_refl)
    as (deltas & age & ratio & self' & Hret & Hidx & _).
  exists deltas, age, ratio, self'. split; [exact Hret | exact Hidx].
Defined.

(** C5, as stated.  With threshold 0 and a point whose amplitude equals
    the baseline's, the difference is exactly zero and index 0 is in the
    delta set all the same: zero differences are not left out. *)
Lemma zero_difference_is_included :
  ~ (forall deltas age ratio self',
       _generate_delta_sweep 1 1 0 default_config [mkSweepData (1990 # 1) (-50 # 1)]
         (demo_bridge 0 [mkSweepData (1990 # 1) (-50 # 1)])
       = (Returned (DeltaSweep 0 default_config deltas age ratio), self') ->
       nonzero_differences [mkSweepData (1990 # 1) (-50 # 1)]
                           [mkSweepData (1990 # 1) (-50 # 1)] deltas).
Proof.
  intros H.
  assert (exists age ratio self',
            _generate_delta_sweep 1 1 0 default_config [mkSweepData (1990 # 1) (-50 # 1)]
              (demo_bridge 0 [mkSweepData (1990 # 1) (-50 # 1)])
            = (Returned (DeltaSweep 0 default_config
                           [mkDelta 0 (1990 # 1) (-50 # 1)] age ratio), self'))
    as (age & ratio & self' & Hrun).
  { do 3 eexists. vm_compute. reflexivity. }
  specialize (H _ _ _ _ Hrun 0 _ _ eq_refl eq_refl).
  apply H; [by apply list_elem_of_singleton | by vm_compute].
Qed.

(** ** The compression ratio *)

(** C6 (amended). Every delta message carries
    [compression_ratio = (1 - (delta_count * 20) / (total_count * 16)) * 100],
    a percentage, where [total_count] is the number of points of the sweep
    and [delta_count] the number of entries of the delta set; it is 0 when
    [total_count] is 0. *)
Theorem compression_ratio_is_percentage (current_time : Q) (client_id : Z)
    (timestamp : Z) (cfg : SweepConfig) (data : list SweepData)
    (self : WebSocketBridge) (timestamp' : Z) (cfg' : SweepConfig)
    (deltas : list DeltaPoint) (age ratio : Q) (self' : WebSocketBridge) :
  _generate_delta_sweep current_time client_id timestamp cfg data self
  = (Returned (DeltaSweep timestamp' cfg' deltas age ratio), self') ->
  (0 < length data ->
   (ratio == (1 - inject_Z (Z.of_nat (length deltas) * 20)
                  / inject_Z (Z.of_nat (length data) * 16)) * (100 # 1))%Q) /\
  (length data = 0 -> ratio = 0%Q).
Proof.
  intros (baseline & _ & _ & _ & _ & _ & _ & _ & ->)%generate_delta_sweep_delta_inv.
  unfold compression_ratio_of. split.
  - intros Hpos.
    destruct (0 <? Z.of_nat (length data * 16))%Z eqn:E; [|apply Z.ltb_ge in E; lia].
    by rewrite !Nat2Z.inj_mul.
  - intros ->. done.
Qed.

(** Two points, one of them moved by 3 dB: one delta. *)
Lemma compression_ratio_is_percentage_witness :
  (compression_ratio_of 2 1
   == (1 - inject_Z (1 * 20) / inject_Z (2 * 16)) * (100 # 1))%Q.
Proof.
  exact (proj1 (compression_ratio_is_percentage 1 1 0 default_config
                  [mkSweepData (1990 # 1) (-50 # 1); mkSweepData (6000 # 1) (-63 # 1)]
                  (demo_bridge 1 [mkSweepData (1990 # 1) (-50 # 1);
                                  mkSweepData (6000 # 1) (-60 # 1)])
                  0 default_config [mkDelta 1 (6000 # 1) (-63 # 1)]
                  (1 - 0)%Q (compression_ratio_of 2 1)
                  (_generate_delta_sweep 1 1 0 default_config
                     [mkSweepData (1990 # 1) (-50 # 1); mkSweepData (6000 # 1) (-63 # 1)]
                     (demo_bridge 1 [mkSweepData (1990 # 1) (-50 # 1);
                                     mkSweepData (6000 # 1) (-60 # 1)])).2
                  ltac:(vm_compute; reflexivity))
               ltac:(simpl; lia)).
Defined.

(** C6, as stated.  For that sweep the message says 37.5, where the
    formula without the factor 100 gives 0.375. *)
Lemma compression_ratio_is_not_a_fraction :
  ~ (forall deltas age ratio self',
       _generate_delta_sweep 1 1 0 default_config
         [mkSweepData (1990 # 1) (-50 # 1); mkSweepData (6000 # 1) (-63 # 1)]
         (demo_bridge 1 [mkSweepData (1990 # 1) (-50 # 1);
                         mkSweepData (6000 # 1) (-60 # 1)])
       = (Returned (DeltaSweep 0 default_config deltas age ratio), self') ->
       (ratio == 1 - inject_Z (Z.of_nat (length deltas) * 20) / inject_Z (2 * 16))%Q).
Proof.
  intros H.
  assert (exists self',
            _generate_delta_sweep 1 1 0 default_config
              [mkSweepData (1990 # 1) (-50 # 1); mkSweepData (6000 # 1) (-63 # 1)]
              (demo_bridge 1 [mkSweepData (1990 # 1) (-50 # 1);
                              mkSweepData (6000 # 1) (-60 # 1)])
            = (Returned (DeltaSweep 0 default_config [mkDelta 1 (6000 # 1) (-63 # 1)]
                           (1 - 0)%Q (compression_ratio_of 2 1)), self'))
    as (self' & Hrun).
  { eexists. vm_compute. reflexivity. }
  specialize (H _ _ _ _ Hrun). vm_compute in H. discriminate H.
Qed.

(** ** Baseline reset on request *)

(** After [request_baseline] the next sweep is sent in full and becomes the
    baseline; the sweep after it, within the refresh interval and with no
    more points than the first, is sent as a delta. *)
Lemma request_baseline_full_then_delta (client_id : Z) (s : ClientSettings)
    (self : WebSocketBridge) (t1 t2 : Q)
    (ts1 : Z) (cfg1 : SweepConfig) (data1 : list SweepData)
    (ts2 : Z) (cfg2 : SweepConfig) (data2 : list SweepData) :
  client_settings self !! client_id = Some s ->
  use_delta_encoding s = true ->
  (t2 - t1 <= baseline_refresh_interval s)%Q ->
  length data2 <= length data1 ->
  exists self0 self1 self2 deltas age ratio,
    handle_client_message client_id RequestBaseline self = (Returned (), self0) /\
    baseline_spectrum self0 !! client_id = None /\
    encode_for t1 client_id (SweepMsg ts1 cfg1 data1) self0
    = (Returned (FullSweep ts1 cfg1 data1), self1) /\
    baseline_spectrum self1 !! client_id = Some data1 /\
    encode_for t2 client_id (SweepMsg ts2 cfg2 data2) self1
    = (Returned (DeltaSweep ts2 cfg2 deltas age ratio), self2).
Proof.
  intros Hs Hon Hin Hlen.
  set (self0 := set_baseline_spectrum self (delete client_id (baseline_spectrum self))).
  assert (baseline_spectrum self0 !! client_id = None) as Hnone
    by (simpl; apply lookup_delete_eq).
  destruct (generate_delta_sweep_full t1 client_id ts1 cfg1 data1 self0 (or_introl Hnone))
    as (self1 & Hfull & Hb1 & Hs1).
  specialize (Hs1 s Hs).
  assert (delta_mode t2 client_id self1 data1) as Hmode.
  { split; [done|]. unfold needs_refresh, baseline_time_of. rewrite Hs1. simpl.
    apply negb_false_iff, Qle_bool_iff. done. }
  pose proof (generate_delta_sweep_returns t2 client_id ts2 cfg2 data2 self1 data1
                Hmode Hlen) as Hdelta.
  cbv zeta in Hdelta.
  exists self0, self1. do 4 eexists.
  split; [done|]. split; [done|]. split; [|split; [done|]].
  - unfold encode_for. change (client_settings self0) with (client_settings self).
    rewrite Hs. simpl. rewrite Hon. exact Hfull.
  - unfold encode_for. rewrite Hs1. simpl. rewrite Hon. exact Hdelta.
Qed.

Lemma update_baseline_exn deltas :
  forall baseline e updated,
  update_baseline baseline deltas = (Raised e, updated) -> e = IndexError.
Proof.
  induction deltas as [|d ds IH]; intros baseline e updated; simpl; [done|].
  destruct (index d <? length baseline); [apply IH | by intros [= <- _]].
Qed.

(** In delta mode a sweep with more points than the stored baseline is not
    encoded: the point at index [len(baseline)] enters the delta set as a
    new point, and writing it back into the list raises [IndexError]. *)
Lemma longer_sweep_raises current_time client_id timestamp cfg data self baseline :
  delta_mode current_time client_id self baseline ->
  length baseline < length data ->
  (_generate_delta_sweep current_time client_id timestamp cfg data self).1
  = Raised IndexError.
Proof.
  intros Hmode Hlen.
  rewrite (generate_delta_sweep_delta _ _ _ _ _ _ baseline) by done. cbv zeta.
  destruct (update_baseline baseline _) as [[[]|e] updated] eqn:Hu; simpl.
  - apply update_baseline_returned in Hu as [_ Hall].
    destruct (lookup_lt_is_Some_2 data (length baseline) Hlen) as [p Hp].
    assert (length baseline ∈ index <$> generate_deltas (threshold_of self client_id)
                                         baseline 0 data) as Hin.
    { apply generate_deltas_index. split; [lia|]. exists p.
      rewrite Nat.sub_0_r. split; [done|].
      unfold included. by rewrite lookup_ge_None_2. }
    apply list_elem_of_fmap in Hin as (d & Hd & Hin).
    rewrite Forall_forall in Hall. specialize (Hall d Hin). lia.
  - by rewrite (update_baseline_exn _ _ _ _ Hu).
Qed.

(** C7, at the input where the code departs from it.  Client 1 has delta
    encoding on and asks for a new baseline; the next sweep (one point) is
    sent in full, as claimed; the sweep after it, one second later, has two
    points, and the encoder raises [IndexError] at
    [baseline[1] = ...] instead of returning a delta message. *)
Theorem request_baseline_then_longer_sweep_raises :
  let self := demo_bridge 1 [mkSweepData (1990 # 1) (-50 # 1)] in
  let self0 := (handle_client_message 1 RequestBaseline self).2 in
  let first :=
    encode_for (10 # 1) 1 (SweepMsg 0 default_config [mkSweepData (1990 # 1) (-50 # 1)])
               self0 in
  let second :=
    encode_for (11 # 1) 1
               (SweepMsg 1 default_config
                  [mkSweepData (1990 # 1) (-50 # 1); mkSweepData (6000 # 1) (-60 # 1)])
               first.2 in
  baseline_spectrum self0 !! 1%Z = None /\
  first.1 = Returned (FullSweep 0 default_config [mkSweepData (1990 # 1) (-50 # 1)]) /\
  second.1 = Raised IndexError.
Proof. cbv zeta. split; [|split]; vm_compute; reflexivity. Qed.

(** * Further properties of the parser *)

(** ** One pass of the loop *)

Lemma config_update_keeps cfg payload :
  steps (config_update cfg payload) = steps cfg /\
  rbw_khz (config_update cfg payload) = rbw_khz cfg.
Proof.
  unfold config_update, try_config.
  destruct (decode_ascii payload) as [s|]; [|done].
  destruct (14 <=? length s); [|done].
  destruct (py_int (take 7 s)); [|done].
  by destruct (py_int (take 7 (drop 7 s))).
Qed.

Lemma find_eol_ge2 b e :
  is_eol (byte_at b 0) = false -> is_eol (byte_at b 1) = false ->
  find_eol b = Some e -> 2 <= e.
Proof.
  destruct b as [|x [|y r]]; unfold byte_at; simpl; try done.
  - intros ->. done.
  - intros -> ->. destruct (find_eol r); simpl; intros [= <-]; lia.
Qed.

Lemma eol_index_bounds b e :
  byte_at b 0 = MARKER -> byte_at b 1 = TAG_CONFIG ->
  eol_index b = Some e -> 2 <= e < length b /\ e < 100.
Proof.
  intros H0 H1 He. pose proof (eol_index_lt _ _ He) as Hlt.
  unfold eol_index in He. rewrite take_min_length in He.
  destruct (find_eol (take 100 b)) as [i|] eqn:Hf.
  - injection He as <-. pose proof (find_eol_lt _ _ Hf) as Hi.
    rewrite length_take in Hi. split; [split; [|done]|lia].
    apply (find_eol_ge2 (take 100 b)); [| |done].
    + destruct b; [done|]. unfold byte_at in *. simpl in *. by rewrite H0.
    + destruct b as [|x [|y r]]; [done..|]. unfold byte_at in *. simpl in *.
      by rewrite H1.
  - destruct (length b <? 100); [done|]. injection He as <-. lia.
Qed.

Lemma dispatch_continue now self appended self' :
  byte_at (buffer self) 0 = MARKER ->
  dispatch now self = Continue appended self' ->
  3 <= length (buffer self) /\ consumed now (config self) (buffer self) appended self'.
Proof.
  intros Hm. unfold dispatch.
  destruct (length (buffer self) <? 3) eqn:H3; [done|].
  apply Nat.ltb_ge in H3. 
  destruct (Byte.eqb (byte_at (buffer self) 1) TAG_SWEEP) eqn:Hs.
  - destruct (_parse_sweep now self) as [[m|] s] eqn:Hp; [|done].
    intros [= <- <-]. split; [done|].
    pose proof (parse_sweep_some _ _ _ _ Hp) as [Hlen ->].
    unfold _parse_sweep in Hp.
    destruct (length (buffer self) <? 4); [done|].
    destruct (length (buffer self) <? 3 + _ + 1); [done|].
    injection Hp as <-. by eapply consumed_sweep.
  - destruct (Byte.eqb (byte_at (buffer self) 1) TAG_CONFIG) eqn:Hc.
    + unfold _parse_config.
      destruct (eol_index (buffer self)) as [e|] eqn:He; [|done].
      intros [= <- <-]. split; [done|].
      apply Byte.byte_dec_bl in Hc.
      destruct (eol_index_bounds _ _ Hm Hc He).
      destruct (config_update_keeps (config self) (slice 2 e (buffer self))).
      by apply consumed_config.
    + intros [= <- <-]. split; [done|]. by apply consumed_unknown.
Qed.

Lemma index_of_Some_0 b : index_of MARKER b = Some 0 -> byte_at b 0 = MARKER.
Proof.
  destruct b as [|x r]; [done|]. unfold byte_at. simpl.
  destruct (Byte.eqb x MARKER) eqn:E; [by apply Byte.byte_dec_bl in E|].
  by destruct (index_of MARKER r).
Qed.

(** One pass that goes round again: the bytes before the first marker are
    dropped, then a frame or one byte is taken off. *)
Lemma loop_body_continue now self appended self' :
  loop_body now self = Continue appended self' ->
  exists i, index_of MARKER (buffer self) = Some i /\
            3 <= length (drop i (buffer self)) /\
            consumed now (config self) (drop i (buffer self)) appended self'.
Proof.
  intros H. destruct (index_of MARKER (buffer self)) as [i|] eqn:Hi.
  - exists i. split; [done|]. rewrite (loop_body_marker _ _ _ Hi) in H.
    apply dispatch_continue in H; [done|].
    apply index_of_Some_0. simpl. by apply index_of_drop.
  - by rewrite loop_body_no_marker in H.
Qed.

(** One pass that leaves the loop: nothing is kept, or an incomplete frame
    that starts at a marker. *)
Lemma loop_body_break now self self' :
  loop_body now self = Break self' ->
  config self' = config self /\
  (buffer self' = [] \/
   exists i, index_of MARKER (buffer self) = Some i /\
             buffer self' = drop i (buffer self) /\
             length (buffer self') <= 258).
Proof.
  intros H. destruct (index_of MARKER (buffer self)) as [i|] eqn:Hi.
  - rewrite (loop_body_marker _ _ _ Hi) in H.
    pose proof (dispatch_break _ _ _ H) as ->. split; [done|]. right.
    exists i. split; [done|]. split; [done|]. simpl.
    revert H. unfold dispatch. simpl.
    destruct (length (drop i (buffer self)) <? 3) eqn:H3.
    { apply Nat.ltb_lt in H3. lia. }
    destruct (Byte.eqb _ TAG_SWEEP).
    + unfold _parse_sweep. simpl.
      destruct (length (drop i (buffer self)) <? 4) eqn:H4.
      { apply Nat.ltb_lt in H4. lia. }
      match goal with
      | |- context [?a <? ?n] => destruct (a <? n) eqn:Hn; [|done]
      end.
      apply Nat.ltb_lt in Hn.
      pose proof (Byte.to_nat_bounded (byte_at (drop i (buffer self)) 2)). lia.
    + destruct (Byte.eqb _ TAG_CONFIG); [|done].
      unfold _parse_config, eol_index. simpl.
      destruct (find_eol _); [done|].
      destruct (length (drop i (buffer self)) <? 100) eqn:Hn; [|done].
      apply Nat.ltb_lt in Hn. lia.
  - rewrite loop_body_no_marker in H by done. injection H as <-. by split; [|left].
Qed.

(** ** What the loop keeps, and the configuration it leaves *)

Lemma last_config_app cfg l1 l2 :
  last_config cfg (l1 ++ l2) = last_config (last_config cfg l1) l2.
Proof. apply fold_left_app. Qed.

Lemma consumed_config_of now cfg b appended s :
  consumed now cfg b appended s -> config s = last_config cfg appended.
Proof. by destruct 1. Qed.

Lemma consumed_length now cfg b appended s :
  3 <= length b -> consumed now cfg b appended s ->
  buffer s `suffix_of` b /\
  3 * length appended + length (buffer s) <= length b /\
  length appended <= 1.
Proof.
  intros Hb [| |]; simpl; intros; (split; [apply suffix_drop|]);
    rewrite length_drop; lia.
Qed.

(** The bytes kept when the loop ends. *)
Lemma run_loop_kept now self messages self' :
  run_loop now self messages self' ->
  buffer self' `suffix_of` buffer self /\
  3 * length messages + length (buffer self') <= length (buffer self) /\
  length (buffer self') <= 258 /\
  (buffer self' <> [] -> byte_at (buffer self') 0 = MARKER).
Proof.
  induction 1 as [self Hb|self self' Hb Hl|self ap s1 ms self' Hb Hl _ IH].
  - rewrite Hb. simpl. repeat split; [done|lia|lia|done].
  - pose proof (loop_body_break_length _ _ _ Hl).
    destruct (loop_body_break _ _ _ Hl) as [_ [E|(i & Hi & E & Hlen)]].
    + rewrite E. simpl. repeat split; [apply suffix_nil|lia|lia|done].
    + repeat split; [rewrite E; apply suffix_drop|simpl; lia|done|].
      intros _. apply index_of_Some_0. rewrite E. by apply index_of_drop.
  - destruct (loop_body_continue _ _ _ _ Hl) as (i & Hi & H3 & Hc).
    destruct (consumed_length _ _ _ _ _ H3 Hc) as (Hs & Hn & _).
    destruct IH as (IHs & IHn & IHl & IHm).
    rewrite length_drop in Hn. rewrite length_app.
    repeat split; [|lia|done|done].
    etrans; [done|]. etrans; [done|]. apply suffix_drop.
Qed.

Lemma run_loop_configs now self messages self' :
  run_loop now self messages self' ->
  config self' = last_config (config self) messages /\
  forall pre t c d post,
    messages = pre ++ SweepMsg t c d :: post ->
    c = last_config (config self) pre.
Proof.
  induction 1 as [self Hb|self self' Hb Hl|self ap s1 ms self' Hb Hl _ IH].
  - split; [done|]. by intros [|??].
  - destruct (loop_body_break _ _ _ Hl) as [-> _]. split; [done|]. by intros [|??].
  - destruct (loop_body_continue _ _ _ _ Hl) as (i & Hi & H3 & Hc).
    destruct IH as [IHc IHs].
    pose proof (consumed_config_of _ _ _ _ _ Hc) as Hcfg.
    split; [by rewrite last_config_app, <- Hcfg|].
    intros pre t c d post E.
    destruct Hc as [Hs Hcc|n fs Hn Hlen|e cfg' He He' Hst Hr]; simpl in *.
    + by rewrite (IHs _ _ _ _ _ E).
    + destruct pre as [|x pre]; simpl in E.
      * by injection E as <- <- <- <-.
      * injection E as <- E. by rewrite (IHs _ _ _ _ _ E).
    + destruct pre as [|x pre]; simpl in E; [done|].
      injection E as <- E. by rewrite (IHs _ _ _ _ _ E).
Qed.

Lemma run_loop_steps now self messages self' :
  run_loop now self messages self' ->
  (steps (config self') = steps (config self) /\
   rbw_khz (config self') = rbw_khz (config self)) /\
  Forall (fun m => steps (config_of m) = steps (config self) /\
                   rbw_khz (config_of m) = rbw_khz (config self)) messages.
Proof.
  induction 1 as [self Hb|self self' Hb Hl|self ap s1 ms self' Hb Hl _ IH].
  - done.
  - by destruct (loop_body_break _ _ _ Hl) as [-> _].
  - destruct (loop_body_continue _ _ _ _ Hl) as (i & Hi & H3 & Hc).
    destruct IH as [[IHs IHr] IHf].
    destruct Hc as [Hs Hcc|n fs Hn Hlen|e cfg' He He' Hst Hr]; simpl in *.
    + done.
    + split; [done|]. by constructor.
    + rewrite Hst in IHs. rewrite Hr in IHr. split; [done|].
      constructor; [done|].
      eapply Forall_impl; [done|]. simpl. intros m []. split; congruence.
Qed.

Lemma sweep_point_amplitude cfg freq_step b i :
  sample_amplitude (amplitude (sweep_point cfg freq_step b i)).
Proof.
  exists (Z.of_nat (Byte.to_nat (byte_at b (3 + i)))). split.
  - pose proof (Byte.to_nat_bounded (byte_at b (3 + i))). lia.
  - unfold sweep_point. cbn [amplitude]. apply amplitude_exact.
Qed.

Lemma run_loop_sweeps now self messages self' :
  run_loop now self messages self' ->
  forall t cfg data,
    SweepMsg t cfg data ∈ messages ->
    length data <= 255 /\
    forall point, point ∈ data -> sample_amplitude (amplitude point).
Proof.
  induction 1 as [self Hb|self self' Hb Hl|self ap s1 ms self' Hb Hl _ IH];
    intros t cfg data Hin.
  - by apply elem_of_nil in Hin.
  - by apply elem_of_nil in Hin.
  - destruct (loop_body_continue _ _ _ _ Hl) as (i & Hi & H3 & Hc).
    apply elem_of_app in Hin as [Hin|Hin]; [|by eapply IH].
    destruct Hc as [Hs Hcc|n fs Hn Hlen|e cfg' He He' Hst Hr].
    + by apply elem_of_nil in Hin.
    + apply list_elem_of_singleton in Hin. injection Hin as -> -> ->.
      split.
      * rewrite length_map, length_seq.
        pose proof (Byte.to_nat_bounded (byte_at (drop i (buffer self)) 2)). lia.
      * intros point Hp. change (map ?f ?l) with (f <$> l) in Hp.
        apply list_elem_of_fmap in Hp as (k & -> & _).
        apply sweep_point_amplitude.
    + by apply list_elem_of_singleton in Hin.
Qed.

Lemma sample_amplitude_range a :
  sample_amplitude a -> (- (255 # 2) <= a <= 0)%Q.
Proof.
  intros (raw & [H0 H255] & ->). unfold Qle, Qdiv, Qopp, Qmult, Qinv. simpl. lia.
Qed.

Lemma run_loop_junk now self junk :
  index_of MARKER (buffer self ++ junk) = None ->
  run_loop now (extend self junk) [] (set_buffer self []).
Proof.
  intros H. destruct (buffer self ++ junk) eqn:E.
  - replace (set_buffer self []) with (extend self junk).
    + by apply run_empty.
    + unfold extend. by rewrite E.
  - apply run_break.
    + unfold extend. simpl. by rewrite E.
    + rewrite loop_body_no_marker; [done|]. simpl. by rewrite E in *.
Qed.

(** X1. [read_data] always returns, and what it keeps in the buffer is
    the tail end of the bytes it had (the old buffer followed by the new
    data): at most 258 bytes, starting with the marker unless nothing is
    kept.  Every frame it returns accounts for at least three of the bytes
    taken off. *)
Theorem read_data_kept_bytes (now : Z) (data : list byte) (self : RFExplorerSerial) :
  exists messages self',
    read_data now data self = Some (messages, self') /\
    buffer self' `suffix_of` (buffer self ++ data) /\
    length (buffer self') <= 258 /\
    (buffer self' <> [] -> byte_at (buffer self') 0 = MARKER) /\
    3 * length messages + length (buffer self') <= length (buffer self ++ data).
Proof.
  destruct (read_data_total now data self) as (messages & self' & E).
  exists messages, self'. split; [done|].
  apply read_data_run, run_loop_kept in E. simpl in E. tauto.
Qed.

(** X2. A call of [read_data] that finds nothing new on the port after
    any other call returns no frame and leaves the parser as it was,
    whatever the clock says: what a call keeps is never a complete
    frame. *)
Theorem read_data_idle_poll (now now' : Z) (data : list byte) (self : RFExplorerSerial) :
  exists messages self',
    read_data now data self = Some (messages, self') /\
    read_data now' [] self' = Some ([], self').
Proof.
  destruct (read_data_total now data self) as (messages & self' & E).
  exists messages, self'. split; [done|].
  apply read_data_run. rewrite extend_nil.
  apply read_data_run in E. by eapply run_loop_settled.
Qed.

(** X3. The configuration after a call of [read_data] is that of the
    last config frame it returned, or the one before the call if there was
    none; every sweep frame it returns carries the configuration in force
    when the frame was decoded, which is that of the last config frame
    returned before it in the same call, or else the one before the
    call. *)
Theorem read_data_config_snapshots (now : Z) (data : list byte) (self : RFExplorerSerial) :
  exists messages self',
    read_data now data self = Some (messages, self') /\
    config self' = last_config (config self) messages /\
    forall pre t cfg points post,
      messages = pre ++ SweepMsg t cfg points :: post ->
      cfg = last_config (config self) pre.
Proof.
  destruct (read_data_total now data self) as (messages & self' & E).
  exists messages, self'. split; [done|].
  apply read_data_run, run_loop_configs in E as [Hcfg Hsweeps].
  split; [done|]. intros pre t cfg points post Hm. by eapply Hsweeps.
Qed.

(** X4. No traffic changes [steps] or [rbw_khz]: after any call of
    [read_data] both are what they were, and every frame returned reports
    them unchanged, whatever sample counts the sweep frames declare. *)
Theorem read_data_keeps_steps_and_rbw (now : Z) (data : list byte) (self : RFExplorerSerial) :
  exists messages self',
    read_data now data self = Some (messages, self') /\
    steps (config self') = steps (config self) /\
    rbw_khz (config self') = rbw_khz (config self) /\
    Forall (fun m => steps (config_of m) = steps (config self) /\
                     rbw_khz (config_of m) = rbw_khz (config self)) messages.
Proof.
  destruct (read_data_total now data self) as (messages & self' & E).
  exists messages, self'. split; [done|].
  apply read_data_run, run_loop_steps in E. simpl in E. tauto.
Qed.

(** X5. A sweep returned by [read_data] has at most 255 points, and each
    amplitude is minus half a byte value: between -127.5 and 0 dBm. *)
Theorem read_data_sweep_bounds (now : Z) (data : list byte) (self : RFExplorerSerial) :
  exists messages self',
    read_data now data self = Some (messages, self') /\
    forall t cfg points,
      SweepMsg t cfg points ∈ messages ->
      length points <= 255 /\
      forall point, point ∈ points ->
        sample_amplitude (amplitude point) /\
        (- (255 # 2) <= amplitude point <= 0)%Q.
Proof.
  destruct (read_data_total now data self) as (messages & self' & E).
  exists messages, self'. split; [done|].
  apply read_data_run in E. intros t cfg points Hin.
  destruct (run_loop_sweeps _ _ _ _ E _ _ _ Hin) as [Hlen Hall].
  split; [done|]. intros point Hp. split; [by apply Hall|].
  by apply sample_amplitude_range, Hall.
Qed.

Lemma run_loop_after_junk now self junk data messages self' :
  index_of MARKER (buffer self ++ junk) = None ->
  run_loop now (extend (set_buffer self []) data) messages self' ->
  run_loop now (extend self (junk ++ data)) messages self'.
Proof.
  intros H Hrun. rewrite <- extend_extend.
  apply (run_loop_app _ _ [] (set_buffer self [])); [by apply run_loop_junk|done].
Qed.

(** X6. Bytes without a marker are dropped without effect: when the
    buffer and the first bytes read hold no marker, [read_data] gives what
    it gives on the remaining bytes from an empty buffer. *)
Theorem read_data_skips_junk (now : Z) (junk data : list byte) (self : RFExplorerSerial) :
  index_of MARKER (buffer self ++ junk) = None ->
  read_data now (junk ++ data) self = read_data now data (set_buffer self []).
Proof.
  intros H.
  destruct (read_data_total now data (set_buffer self [])) as (messages & self' & E).
  rewrite E. apply read_data_run. apply read_data_run in E.
  by apply run_loop_after_junk.
Qed.

Lemma read_data_skips_junk_witness :
  read_data 7 (list_byte_of_string "ab" ++ list_byte_of_string "$C" ++ [LF])
            (mkSerial default_config [x0a; x00])
  = read_data 7 (list_byte_of_string "$C" ++ [LF])
              (set_buffer (mkSerial default_config [x0a; x00]) []).
Proof. apply read_data_skips_junk. reflexivity. Defined.

(** X7. A frame of unknown type is skipped up to the next marker: from
    an empty buffer, the marker, a type byte that is neither the sweep tag
    nor the config tag nor a marker, and marker-free bytes after it change
    nothing in what [read_data] returns and keeps, provided at least one
    byte follows the type byte (with two bytes only the call waits). *)
Theorem read_data_skips_unknown_frame (now : Z) (cfg : SweepConfig) (tag : byte)
    (body data : list byte) :
  tag <> TAG_SWEEP -> tag <> TAG_CONFIG -> tag <> MARKER ->
  index_of MARKER body = None ->
  body ++ data <> [] ->
  read_data now (MARKER :: tag :: body ++ data) (mkSerial cfg [])
  = read_data now data (mkSerial cfg []).
Proof.
  intros Hs Hc Hm Hbody Hne.
  assert (forall x y, x <> y -> Byte.eqb x y = false) as Hneq.
  { intros x y Hxy. destruct (Byte.eqb x y) eqn:E; [|done].
    by apply Byte.byte_dec_bl in E. }
  destruct (read_data_total now data (mkSerial cfg [])) as (messages & self' & E).
  rewrite E. apply read_data_run. apply read_data_run in E.
  apply (run_continue _ _ [] (mkSerial cfg (tag :: body ++ data))); [done| |].
  - unfold loop_body, dispatch, extend. simpl.
    destruct (body ++ data) eqn:Eb; [done|]. simpl.
    unfold byte_at. simpl. by rewrite (Hneq _ _ Hs), (Hneq _ _ Hc).
  - apply (run_loop_after_junk now (mkSerial cfg []) (tag :: body) data); [|done].
    simpl. by rewrite (Hneq _ _ Hm), Hbody.
Qed.

Lemma read_data_skips_unknown_frame_witness :
  read_data 7 (MARKER :: x58 :: list_byte_of_string "q" ++ list_byte_of_string "$C" ++ [LF])
            (mkSerial default_config [])
  = read_data 7 (list_byte_of_string "$C" ++ [LF]) (mkSerial default_config []).
Proof. by apply read_data_skips_unknown_frame. Defined.

(** * Further properties of the bridge *)

#[local] Set Warnings "-clear-no-such-hyp".

(** ** The encoder works on its client only *)

Lemma store_lookup_ne {A} k k' (v : option A) m : k <> k' -> store k v m !! k' = m !! k'.
Proof. intros. destruct v; simpl; [by apply lookup_insert_ne|done]. Qed.

Lemma store_commute {A} k1 k2 (v1 v2 : option A) m :
  k1 <> k2 -> store k1 v1 (store k2 v2 m) = store k2 v2 (store k1 v1 m).
Proof. intros. destruct v1, v2; simpl; [by apply insert_insert_ne|done..]. Qed.

(** The encoder reads and writes the entries of its client only. *)
Lemma encode_for_local current_time client_id m settings baseline :
  exists result new_settings new_baseline,
  forall self,
    client_settings self !! client_id = settings ->
    baseline_spectrum self !! client_id = baseline ->
    encode_for current_time client_id m self
    = (result,
       mkBridge (rf_explorer self) (clients self)
                (store client_id new_settings (client_settings self))
                (store client_id new_baseline (baseline_spectrum self))).
Proof.
  assert (forall self, self = mkBridge (rf_explorer self) (clients self)
            (store client_id None (client_settings self))
            (store client_id None (baseline_spectrum self))) as Hid.
  { by intros []. }
  destruct m as [timestamp cfg data|cfg]; simpl.
  2:{ exists (Returned (Plain (ConfigMsg cfg))), None, None.
      intros self _ _. by rewrite <- Hid. }
  destruct (setting use_delta_encoding false settings) eqn:Huse.
  2:{ exists (Returned (Plain (SweepMsg timestamp cfg data))), None, None.
      intros self -> _. rewrite Huse. by rewrite <- Hid. }
  unfold _generate_delta_sweep.
  destruct baseline as [b|];
    [destruct (negb (Qle_bool (current_time - setting last_baseline_time 0%Q settings)
                              (setting baseline_refresh_interval (60 # 1)%Q settings)))
       eqn:Hr|].
  - destruct settings as [s|]; [|done].
    eexists _, (Some _), (Some data). intros self -> ->. rewrite Huse, Hr. done.
  - destruct (update_baseline b
                (generate_deltas (setting delta_threshold_db 1%Q settings) b 0 data))
      as [[u|e] b'] eqn:Hu.
    + eexists _, None, (Some b'). intros self -> ->. rewrite Huse, Hr, Hu. done.
    + eexists _, None, (Some b'). intros self -> ->. rewrite Huse, Hr, Hu. done.
  - destruct settings as [s|]; [|done].
    eexists _, (Some _), (Some data). intros self -> ->. rewrite Huse. done.
Qed.

(** X8. Encoding a message for one client leaves the settings and the
    baseline of every other client, the set of clients and the parser as
    they were, whether the encoder returns or raises. *)
Theorem encode_for_other_clients_untouched (current_time : Q) (client_id : Z)
    (m : message) (self : WebSocketBridge) (other : Z) :
  other <> client_id ->
  let self' := (encode_for current_time client_id m self).2 in
  client_settings self' !! other = client_settings self !! other /\
  baseline_spectrum self' !! other = baseline_spectrum self !! other /\
  clients self' = clients self /\
  rf_explorer self' = rf_explorer self.
Proof.
  intros Hne.
  destruct (encode_for_local current_time client_id m
              (client_settings self !! client_id) (baseline_spectrum self !! client_id))
    as (r & s & b & E).
  rewrite (E self) by done. simpl.
  by rewrite !store_lookup_ne.
Qed.

Lemma encode_for_other_clients_untouched_witness :
  let self' :=
    (encode_for 1 1 (SweepMsg 0 default_config [mkSweepData (1990 # 1) (-53 # 1)])
       (connect 0 2 (demo_bridge 1 [mkSweepData (1990 # 1) (-50 # 1)]))).2 in
  client_settings self' !! 2%Z
  = client_settings (connect 0 2 (demo_bridge 1 [mkSweepData (1990 # 1) (-50 # 1)])) !! 2%Z /\
  baseline_spectrum self' !! 2%Z
  = baseline_spectrum (connect 0 2 (demo_bridge 1 [mkSweepData (1990 # 1) (-50 # 1)])) !! 2%Z /\
  clients self' = clients (connect 0 2 (demo_bridge 1 [mkSweepData (1990 # 1) (-50 # 1)])) /\
  rf_explorer self'
  = rf_explorer (connect 0 2 (demo_bridge 1 [mkSweepData (1990 # 1) (-50 # 1)])).
Proof. by apply encode_for_other_clients_untouched. Defined.

(** Encoding for two different clients commutes. *)
Lemma encode_for_commutes (time_a time_b : Q) (a b : Z) (m_a m_b : message)
    (self : WebSocketBridge) :
  a <> b ->
  let first_a := encode_for time_a a m_a self in
  let then_b := encode_for time_b b m_b first_a.2 in
  let first_b := encode_for time_b b m_b self in
  let then_a := encode_for time_a a m_a first_b.2 in
  first_a.1 = then_a.1 /\ then_b.1 = first_b.1 /\ then_b.2 = then_a.2.
Proof.
  intros Hne.
  destruct (encode_for_local time_a a m_a
              (client_settings self !! a) (baseline_spectrum self !! a))
    as (ra & sa & ba & Ea).
  destruct (encode_for_local time_b b m_b
              (client_settings self !! b) (baseline_spectrum self !! b))
    as (rb & sb & bb & Eb).
  simpl. rewrite (Ea self), (Eb self) by done. simpl.
  rewrite Ea, Eb; simpl; rewrite ?store_lookup_ne by done; try done.
  repeat split. f_equal; by apply store_commute.
Qed.

Lemma needs_refresh_iff current_time self client_id s :
  client_settings self !! client_id = Some s ->
  needs_refresh current_time self client_id = true <->
  (baseline_refresh_interval s < current_time - last_baseline_time s)%Q.
Proof.
  intros Hs. unfold needs_refresh, baseline_time_of. rewrite Hs. simpl.
  rewrite negb_true_iff. split.
  - intros H. apply Qnot_le_lt. intros Hle. apply Qle_bool_iff in Hle. congruence.
  - intros H. destruct (Qle_bool _ _) eqn:E; [|done].
    apply Qle_bool_iff in E. by apply Qlt_not_le in H.
Qed.

(** X10. For a client with delta encoding on, a sweep is sent in full
    exactly when the client has no baseline or strictly more than the
    refresh interval has passed since the baseline was taken (at the
    interval exactly, it is not); a full sweep becomes the baseline and
    sets the baseline time to the clock reading. *)
Theorem full_sweep_iff_no_or_stale_baseline (current_time : Q) (client_id : Z)
    (timestamp : Z) (cfg : SweepConfig) (data : list SweepData)
    (self : WebSocketBridge) (s : ClientSettings) :
  client_settings self !! client_id = Some s ->
  use_delta_encoding s = true ->
  let result := encode_for current_time client_id (SweepMsg timestamp cfg data) self in
  (result.1 = Returned (FullSweep timestamp cfg data) <->
   baseline_spectrum self !! client_id = None \/
   (baseline_refresh_interval s < current_time - last_baseline_time s)%Q) /\
  (result.1 = Returned (FullSweep timestamp cfg data) ->
   baseline_spectrum result.2 !! client_id = Some data /\
   client_settings result.2 !! client_id
   = Some (mkSettings true (delta_threshold_db s) (baseline_refresh_interval s)
                      current_time)).
Proof.
  intros Hs Huse. simpl. rewrite Hs. simpl. rewrite Huse.
  rewrite <- (needs_refresh_iff current_time self client_id s Hs).
  destruct (baseline_spectrum self !! client_id) as [baseline|] eqn:Hb.
  - destruct (needs_refresh current_time self client_id) eqn:Hr.
    + destruct (generate_delta_sweep_full current_time client_id timestamp cfg data self)
        as (self' & -> & Hb' & Hs'); [by right|].
      simpl. split; [by split; [right|]|]. intros _. split; [done|].
      rewrite (Hs' s Hs), Huse. done.
    + rewrite (generate_delta_sweep_delta _ _ _ _ _ _ baseline) by done.
      simpl. destruct (update_baseline baseline _) as [[u|e] b']; simpl.
      * split; [|done]. split; [done|]. by intros [|].
      * split; [|done]. split; [done|]. by intros [|].
  - destruct (generate_delta_sweep_full current_time client_id timestamp cfg data self)
      as (self' & -> & Hb' & Hs'); [by left|].
    simpl. split; [by split; [left|]|]. intros _. split; [done|].
    rewrite (Hs' s Hs), Huse. done.
Qed.

Lemma full_sweep_iff_no_or_stale_baseline_witness :
  let result :=
    encode_for (60 # 1) 1 (SweepMsg 0 default_config [mkSweepData (1990 # 1) (-53 # 1)])
               (demo_bridge 1 [mkSweepData (1990 # 1) (-50 # 1)]) in
  (result.1 = Returned (FullSweep 0 default_config [mkSweepData (1990 # 1) (-53 # 1)]) <->
   baseline_spectrum (demo_bridge 1 [mkSweepData (1990 # 1) (-50 # 1)]) !! 1%Z = None \/
   ((60 # 1) < (60 # 1) - 0)%Q).
Proof.
  exact (proj1 (full_sweep_iff_no_or_stale_baseline (60 # 1) 1 0 default_config
                  [mkSweepData (1990 # 1) (-53 # 1)]
                  (demo_bridge 1 [mkSweepData (1990 # 1) (-50 # 1)])
                  (mkSettings true 1 (60 # 1) 0) eq_refl eq_refl)).
Defined.

(** ** The delta set and the baseline *)

(** A returned delta message means the sweep was no longer than the baseline. *)
Lemma in_range_length threshold baseline data :
  Forall (fun d => index d < length baseline) (generate_deltas threshold baseline 0 data) ->
  length data <= length baseline.
Proof.
  intros Hall. destruct (decide (length data <= length baseline)) as [|Hgt]; [done|].
  assert (length baseline ∈ index <$> generate_deltas threshold baseline 0 data) as Hin.
  { apply generate_deltas_index. split; [lia|].
    destruct (lookup_lt_is_Some_2 data (length baseline - 0)) as [p Hp]; [lia|].
    exists p. split; [done|]. unfold included.
    by rewrite lookup_ge_None_2. }
  apply list_elem_of_fmap in Hin as (d & Hd & Hin).
  rewrite Forall_forall in Hall. specialize (Hall d Hin). lia.
Qed.

(** X11. When the encoder emits a delta set, the sweep is no longer
    than the baseline and an index is in the set exactly when the
    amplitude at that index differs from the baseline's by at least the
    client's threshold. *)
Theorem delta_set_is_threshold_test (current_time : Q) (client_id : Z)
    (timestamp : Z) (cfg : SweepConfig) (data : list SweepData)
    (self : WebSocketBridge) (timestamp' : Z) (cfg' : SweepConfig)
    (deltas : list DeltaPoint) (age ratio : Q) (self' : WebSocketBridge) :
  _generate_delta_sweep current_time client_id timestamp cfg data self
  = (Returned (DeltaSweep timestamp' cfg' deltas age ratio), self') ->
  exists baseline : list SweepData,
    baseline_spectrum self !! client_id = Some baseline /\
    length data <= length baseline /\
    forall k,
      k ∈ index <$> deltas <->
      exists point b,
        data !! k = Some point /\ baseline !! k = Some b /\
        (threshold_of self client_id <= Qabs (amplitude point - amplitude b))%Q.
Proof.
  intros H.
  destruct (generate_delta_sweep_delta_inv _ _ _ _ _ _ _ _ _ _ _ _ H)
    as (baseline & [Hb _] & -> & Hall & _).
  exists baseline. split; [done|].
  pose proof (in_range_length _ _ _ Hall) as Hlen. split; [done|].
  intros k. rewrite generate_deltas_index, Nat.sub_0_r. unfold included. split.
  - intros (_ & p & Hp & Hinc).
    destruct (baseline !! k) as [b|] eqn:Hk.
    + exists p, b. by rewrite <- Qle_bool_iff.
    + apply lookup_lt_Some in Hp. apply lookup_ge_None in Hk. lia.
  - intros (p & b & Hp & Hk & Hle). split; [lia|]. exists p. split; [done|].
    rewrite Hk. by apply Qle_bool_iff.
Qed.

Lemma delta_set_is_threshold_test_witness :
  exists baseline : list SweepData,
    baseline_spectrum
      (demo_bridge 1 [mkSweepData (1990 # 1) (-50 # 1); mkSweepData (6000 # 1) (-60 # 1)])
      !! 1%Z = Some baseline /\
    2 <= length baseline /\
    forall k,
      k ∈ index <$> [mkDelta 1 (6000 # 1) (-63 # 1)] <->
      exists point b,
        [mkSweepData (1990 # 1) (-50 # 1); mkSweepData (6000 # 1) (-63 # 1)] !! k
        = Some point /\
        baseline !! k = Some b /\
        (threshold_of
           (demo_bridge 1 [mkSweepData (1990 # 1) (-50 # 1);
                           mkSweepData (6000 # 1) (-60 # 1)]) 1
         <= Qabs (amplitude point - amplitude b))%Q.
Proof.
  by eapply (delta_set_is_threshold_test 1 1 0 default_config
               [mkSweepData (1990 # 1) (-50 # 1); mkSweepData (6000 # 1) (-63 # 1)]).
Defined.

(** X12. After a delta message the stored baseline tracks the sweep to
    within the threshold: at each index of the sweep it holds either the
    sweep's point or the point it held before, whose amplitude is then
    less than the threshold away from the sweep's. *)
Theorem delta_baseline_within_threshold (current_time : Q) (client_id : Z)
    (timestamp : Z) (cfg : SweepConfig) (data : list SweepData)
    (self : WebSocketBridge) (timestamp' : Z) (cfg' : SweepConfig)
    (deltas : list DeltaPoint) (age ratio : Q) (self' : WebSocketBridge) :
  _generate_delta_sweep current_time client_id timestamp cfg data self
  = (Returned (DeltaSweep timestamp' cfg' deltas age ratio), self') ->
  exists baseline baseline' : list SweepData,
    baseline_spectrum self !! client_id = Some baseline /\
    baseline_spectrum self' !! client_id = Some baseline' /\
    forall k point,
      data !! k = Some point ->
      baseline' !! k = Some point \/
      exists b, baseline' !! k = Some b /\ baseline !! k = Some b /\
                (Qabs (amplitude point - amplitude b) < threshold_of self client_id)%Q.
Proof.
  intros H.
  destruct (generate_delta_sweep_delta_inv _ _ _ _ _ _ _ _ _ _ _ _ H)
    as (baseline & [Hb _] & -> & Hall & -> & _).
  exists baseline, (apply_deltas baseline
                      (generate_deltas (threshold_of self client_id) baseline 0 data)).
  split; [done|]. split; [simpl; by rewrite lookup_insert_eq|].
  pose proof (in_range_length _ _ _ Hall) as Hlen.
  intros k p Hp.
  destruct (decide (k ∈ index <$> generate_deltas (threshold_of self client_id)
                                    baseline 0 data)) as [Hin|Hout].
  - left. apply list_elem_of_fmap in Hin as (d & -> & Hin).
    rewrite Forall_forall in Hall.
    rewrite (apply_generate_touched _ _ _ _ _ _ Hin) by auto.
    destruct (generate_deltas_elem _ _ _ _ _ Hin) as (_ & Hd & _).
    rewrite Nat.sub_0_r in Hd. congruence.
  - right. rewrite apply_deltas_untouched by done.
    destruct (lookup_lt_is_Some_2 baseline k) as [b Hk].
    { apply lookup_lt_Some in Hp. lia. }
    exists b. split; [done|]. split; [done|].
    apply Qnot_le_lt. intros Hle. apply Hout.
    apply generate_deltas_index. split; [lia|]. exists p.
    rewrite Nat.sub_0_r. split; [done|]. unfold included. rewrite Hk.
    by apply Qle_bool_iff.
Qed.

Lemma delta_baseline_within_threshold_witness :
  exists baseline baseline' : list SweepData,
    baseline_spectrum
      (demo_bridge 1 [mkSweepData (1990 # 1) (-50 # 1); mkSweepData (6000 # 1) (-60 # 1)])
      !! 1%Z = Some baseline /\
    baseline_spectrum
      (_generate_delta_sweep 1 1 0 default_config
         [mkSweepData (1990 # 1) (-505 # 10); mkSweepData (6000 # 1) (-63 # 1)]
         (demo_bridge 1 [mkSweepData (1990 # 1) (-50 # 1);
                         mkSweepData (6000 # 1) (-60 # 1)])).2
      !! 1%Z = Some baseline' /\
    forall k point,
      [mkSweepData (1990 # 1) (-505 # 10); mkSweepData (6000 # 1) (-63 # 1)] !! k
      = Some point ->
      baseline' !! k = Some point \/
      exists b, baseline' !! k = Some b /\ baseline !! k = Some b /\
                (Qabs (amplitude point - amplitude b)
                 < threshold_of
                     (demo_bridge 1 [mkSweepData (1990 # 1) (-50 # 1);
                                     mkSweepData (6000 # 1) (-60 # 1)]) 1)%Q.
Proof.
  by eapply (delta_baseline_within_threshold 1 1 0 default_config
               [mkSweepData (1990 # 1) (-505 # 10); mkSweepData (6000 # 1) (-63 # 1)]).
Defined.

Lemma generate_deltas_none threshold baseline data :
  (forall k point, data !! k = Some point -> included threshold baseline k point = false) ->
  generate_deltas threshold baseline 0 data = [].
Proof.
  intros H.
  destruct (generate_deltas threshold baseline 0 data) as [|d l] eqn:E; [done|].
  assert (d ∈ generate_deltas threshold baseline 0 data) as Hin
    by (rewrite E; apply list_elem_of_here).
  destruct (generate_deltas_elem _ _ _ _ _ Hin) as (_ & Hd & Hinc).
  rewrite Nat.sub_0_r in Hd. rewrite (H _ _ Hd) in Hinc. done.
Qed.

(** X13. In delta mode with a positive threshold, a sweep whose
    amplitudes equal the baseline's is encoded as an empty delta set and
    leaves the bridge exactly as it was; the compression ratio is 100 for
    a non-empty sweep.  Only amplitudes are compared: frequencies that
    differ from the baseline's are neither sent nor stored. *)
Theorem unchanged_amplitudes_empty_delta (current_time : Q) (client_id : Z)
    (timestamp : Z) (cfg : SweepConfig) (data : list SweepData)
    (self : WebSocketBridge) (baseline : list SweepData) :
  delta_mode current_time client_id self baseline ->
  (0 < threshold_of self client_id)%Q ->
  length data <= length baseline ->
  (forall k point b,
     data !! k = Some point -> baseline !! k = Some b ->
     (amplitude point == amplitude b)%Q) ->
  exists age ratio,
    _generate_delta_sweep current_time client_id timestamp cfg data self
    = (Returned (DeltaSweep timestamp cfg [] age ratio), self) /\
    (0 < length data -> (ratio == 100 # 1)%Q).
Proof.
  intros Hmode Hpos Hlen Hsame.
  assert (generate_deltas (threshold_of self client_id) baseline 0 data = []) as Hnil.
  { apply generate_deltas_none. intros k p Hp. unfold included.
    destruct (lookup_lt_is_Some_2 baseline k) as [b Hk].
    { apply lookup_lt_Some in Hp. lia. }
    rewrite Hk. destruct (Qle_bool _ _) eqn:E; [|done].
    apply Qle_bool_iff in E. rewrite (Hsame _ _ _ Hp Hk) in E.
    assert (amplitude b - amplitude b == 0)%Q as E0 by ring.
    rewrite E0 in E. change (Qabs 0) with 0%Q in E.
    by apply Qle_not_lt in E. }
  pose proof (generate_delta_sweep_returns _ _ timestamp cfg _ _ _ Hmode Hlen) as H.
  simpl in H. rewrite Hnil in H. simpl in H.
  eexists _, _. split.
  - rewrite H. f_equal. destruct Hmode as [Hb _].
    unfold apply_deltas. simpl. rewrite insert_id by done. by destruct self.
  - intros Hn. unfold compression_ratio_of.
    destruct (0 <? Z.of_nat (length data * 16))%Z eqn:E.
    + simpl (Z.of_nat (0 * 20)). unfold Qeq, Qdiv, Qmult, Qminus, Qplus, Qopp, Qinv.
      simpl. lia.
    + apply Z.ltb_ge in E. lia.
Qed.

Lemma unchanged_amplitudes_empty_delta_witness :
  exists age ratio,
    _generate_delta_sweep 1 1 0 default_config [mkSweepData (2000 # 1) (-50 # 1)]
      (demo_bridge 1 [mkSweepData (1990 # 1) (-50 # 1)])
    = (Returned (DeltaSweep 0 default_config [] age ratio),
       demo_bridge 1 [mkSweepData (1990 # 1) (-50 # 1)]) /\
    (0 < 1 -> (ratio == 100 # 1)%Q).
Proof.
  apply (unchanged_amplitudes_empty_delta 1 1 0 default_config
           [mkSweepData (2000 # 1) (-50 # 1)]
           (demo_bridge 1 [mkSweepData (1990 # 1) (-50 # 1)])
           [mkSweepData (1990 # 1) (-50 # 1)]).
  - by split.
  - reflexivity.
  - simpl. lia.
  - intros [|[|k]] point b; simpl; try done. by intros [= <-] [= <-].
Defined.

(** ** Sessions *)

(** X14. Switching delta encoding off does not clear the baseline.
    While it is off the client gets messages as they came from the parser
    and nothing is stored; switching it on again gives back the very state
    from before, so the next sweep is compared with the baseline stored
    before the switch. *)
Theorem disable_enable_keeps_baseline (client_id : Z) (s : ClientSettings)
    (self : WebSocketBridge) (current_time : Q) (m : message) :
  client_settings self !! client_id = Some s ->
  use_delta_encoding s = true ->
  let off := (handle_client_message client_id (EnableDeltaEncoding false) self).2 in
  let on := (handle_client_message client_id (EnableDeltaEncoding true)
               (encode_for current_time client_id m off).2).2 in
  encode_for current_time client_id m off = (Returned (Plain m), off) /\
  baseline_spectrum off = baseline_spectrum self /\
  on = self.
Proof.
  intros Hs Huse. simpl. rewrite Hs. simpl.
  assert (encode_for current_time client_id m
            (set_client_settings self
               (<[client_id := mkSettings false (delta_threshold_db s)
                                 (baseline_refresh_interval s) (last_baseline_time s)]>
                  (client_settings self)))
          = (Returned (Plain m),
             set_client_settings self
               (<[client_id := mkSettings false (delta_threshold_db s)
                                 (baseline_refresh_interval s) (last_baseline_time s)]>
                  (client_settings self)))) as E.
  { destruct m; simpl; [|done]. by rewrite lookup_insert_eq. }
  rewrite E. split; [done|]. split; [done|]. simpl.
  rewrite lookup_insert_eq. simpl. unfold set_client_settings. simpl.
  rewrite insert_insert_eq.
  destruct s as [u th iv lt]. simpl in *. subst u.
  rewrite insert_id by done. by destruct self.
Qed.

Lemma disable_enable_keeps_baseline_witness :
  let self := demo_bridge 1 [mkSweepData (1990 # 1) (-50 # 1)] in
  let m := SweepMsg 0 default_config [mkSweepData (1990 # 1) (-53 # 1)] in
  let off := (handle_client_message 1 (EnableDeltaEncoding false) self).2 in
  let on := (handle_client_message 1 (EnableDeltaEncoding true)
               (encode_for 5 1 m off).2).2 in
  encode_for 5 1 m off = (Returned (Plain m), off) /\
  baseline_spectrum off = baseline_spectrum self /\
  on = self.
Proof.
  by apply (disable_enable_keeps_baseline 1 (mkSettings true 1 (60 # 1) 0)).
Defined.

Lemma encode_for_consistent current_time client_id m self :
  sessions_consistent self -> client_id ∈ clients self ->
  sessions_consistent (encode_for current_time client_id m self).2.
Proof.
  intros [Hs Hb] Hin.
  destruct (encode_for_local current_time client_id m
              (client_settings self !! client_id) (baseline_spectrum self !! client_id))
    as (r & s & b & E).
  rewrite (E self) by done. unfold sessions_consistent. simpl. split.
  - destruct s; simpl; [|done]. rewrite dom_insert_L. set_solver.
  - destruct b; simpl; [|done]. rewrite dom_insert. set_solver.
Qed.

Lemma broadcast_consistent visits m :
  forall self,
  sessions_consistent self ->
  Forall (fun v => v.1 ∈ clients self) visits ->
  sessions_consistent (broadcast visits m self).2.
Proof.
  induction visits as [|[client_id t] rest IH]; intros self Hc Hall; [done|].
  apply Forall_cons in Hall as [Hin Hall]. simpl in *.
  pose proof (encode_for_consistent t client_id m self Hc Hin) as Hc'.
  destruct (encode_for_local t client_id m
              (client_settings self !! client_id) (baseline_spectrum self !! client_id))
    as (r & s & b & E).
  rewrite (E self) in * by done.
  destruct r as [e|e]; [|done].
  specialize (IH _ Hc' Hall).
  by destruct (broadcast rest m _) as [[sent result] self'].
Qed.

(** X15. A new bridge has a settings entry for every client and
    baselines for clients only, and a connection, the end of a connection,
    a control message of a connected client, an encoding for a connected
    client and a broadcast to connected clients all keep it that way; the
    session lookups of a control message of a connected client never
    raise [KeyError]. *)
Theorem sessions_stay_consistent :
  (forall rf_explorer, sessions_consistent (new_bridge rf_explorer)) /\
  forall self, sessions_consistent self ->
    (forall now client_id, sessions_consistent (connect now client_id self)) /\
    (forall client_id, sessions_consistent (disconnect client_id self)) /\
    (forall client_id msg, client_id ∈ clients self ->
       (handle_client_message client_id msg self).1 = Returned () /\
       sessions_consistent (handle_client_message client_id msg self).2) /\
    (forall current_time client_id m, client_id ∈ clients self ->
       sessions_consistent (encode_for current_time client_id m self).2) /\
    (forall visits m, Forall (fun v => v.1 ∈ clients self) visits ->
       sessions_consistent (broadcast visits m self).2).
Proof.
  split.
  { intros r. unfold sessions_consistent. simpl. rewrite dom_empty_L. set_solver. }
  intros self [Hs Hb]. repeat split.
  - simpl. rewrite dom_insert_L. set_solver.
  - simpl. set_solver.
  - simpl. rewrite dom_delete_L. set_solver.
  - simpl. rewrite dom_delete. set_solver.
  - destruct msg; simpl; try done.
    destruct (client_settings self !! client_id) eqn:E; [done|].
    apply not_elem_of_dom in E. set_solver.
  - destruct msg; simpl; try done.
    destruct (client_settings self !! client_id) eqn:E; [|done].
    simpl. rewrite dom_insert_L. set_solver.
  - destruct msg; simpl; try done.
    + destruct (client_settings self !! client_id); done.
    + rewrite dom_delete. set_solver.
  - by apply encode_for_consistent.
  - by apply encode_for_consistent.
  - by apply broadcast_consistent.
  - by apply broadcast_consistent.
Qed.

(** X16. A client that has just connected gets every message as it
    came from the parser; once it has switched delta encoding on, the
    first sweep is sent in full, whatever the clock, and becomes its
    baseline. *)
Theorem new_client_plain_then_full (now : Q) (client_id : Z) (self : WebSocketBridge)
    (time_1 time_2 : Q) (m : message)
    (timestamp : Z) (cfg : SweepConfig) (data : list SweepData) :
  sessions_consistent self ->
  client_id ∉ clients self ->
  let joined := connect now client_id self in
  let enabled := (handle_client_message client_id (EnableDeltaEncoding true) joined).2 in
  encode_for time_1 client_id m joined = (Returned (Plain m), joined) /\
  exists self',
    encode_for time_2 client_id (SweepMsg timestamp cfg data) enabled
    = (Returned (FullSweep timestamp cfg data), self') /\
    baseline_spectrum self' !! client_id = Some data.
Proof.
  intros [Hs Hb] Hnew. simpl. rewrite !lookup_insert_eq. simpl. split.
  - destruct m; simpl; [|done]. by rewrite lookup_insert_eq.
  - rewrite lookup_insert_eq. simpl.
    edestruct generate_delta_sweep_full as (self' & -> & Hb' & _); [|by eexists].
    left. simpl. apply not_elem_of_dom. set_solver.
Qed.

Lemma new_client_plain_then_full_witness :
  let joined := connect 0 2 (demo_bridge 1 [mkSweepData (1990 # 1) (-50 # 1)]) in
  let enabled := (handle_client_message 2 (EnableDeltaEncoding true) joined).2 in
  encode_for 1 2 (ConfigMsg default_config) joined
  = (Returned (Plain (ConfigMsg default_config)), joined) /\
  exists self',
    encode_for 100 2 (SweepMsg 0 default_config [mkSweepData (1990 # 1) (-53 # 1)]) enabled
    = (Returned (FullSweep 0 default_config [mkSweepData (1990 # 1) (-53 # 1)]), self') /\
    baseline_spectrum self' !! 2%Z = Some [mkSweepData (1990 # 1) (-53 # 1)].
Proof.
  apply (new_client_plain_then_full 0 2 (demo_bridge 1 [mkSweepData (1990 # 1) (-50 # 1)])).
  - split; by vm_compute.
  - by vm_compute.
Defined.

Lemma disconnect_store client_id self s b :
  disconnect client_id
    (mkBridge (rf_explorer self) (clients self)
              (store client_id s (client_settings self))
              (store client_id b (baseline_spectrum self)))
  = disconnect client_id self.
Proof.
  unfold disconnect. simpl. f_equal.
  - destruct s; simpl; [apply delete_insert_eq|done].
  - destruct b; simpl; [apply delete_insert_eq|done].
Qed.

(** X17. A session leaves no trace: ending the connection of a client
    that has just connected gives back the bridge from before, and
    encodings for the client, its switching delta encoding on or off and
    its baseline requests change nothing that is left once its connection
    has ended. *)
Theorem session_leaves_no_trace (now : Q) (client_id : Z) (self : WebSocketBridge) :
  sessions_consistent self ->
  client_id ∉ clients self ->
  disconnect client_id (connect now client_id self) = self /\
  forall s : WebSocketBridge,
    (forall current_time m,
       disconnect client_id (encode_for current_time client_id m s).2
       = disconnect client_id s) /\
    (forall enabled,
       disconnect client_id
         (handle_client_message client_id (EnableDeltaEncoding enabled) s).2
       = disconnect client_id s) /\
    disconnect client_id (handle_client_message client_id RequestBaseline s).2
    = disconnect client_id s.
Proof.
  intros [Hs Hb] Hnew. split.
  - destruct self as [r c st bl]. unfold disconnect, connect. simpl in *. f_equal.
    + set_solver.
    + rewrite delete_insert_eq. apply delete_id. apply not_elem_of_dom. set_solver.
    + apply delete_id. apply not_elem_of_dom. set_solver.
  - intros s. repeat split.
    + intros t m.
      destruct (encode_for_local t client_id m
                  (client_settings s !! client_id) (baseline_spectrum s !! client_id))
        as (r & st & b & E).
      rewrite (E s) by done. simpl. apply disconnect_store.
    + intros enabled. simpl.
      destruct (client_settings s !! client_id); [|done].
      unfold disconnect. simpl. by rewrite delete_insert_eq.
    + unfold disconnect. simpl. by rewrite delete_delete_eq.
Qed.

Lemma session_leaves_no_trace_witness :
  disconnect 2 (connect 0 2 (demo_bridge 1 [mkSweepData (1990 # 1) (-50 # 1)]))
  = demo_bridge 1 [mkSweepData (1990 # 1) (-50 # 1)].
Proof.
  apply (session_leaves_no_trace 0 2 (demo_bridge 1 [mkSweepData (1990 # 1) (-50 # 1)])).
  - split; by vm_compute.
  - by vm_compute.
Defined.

(** ** [broadcast] *)

(** X18. A config frame, and any frame when no visited client has delta
    encoding on, is broadcast to every client as it came from the parser,
    in visiting order, and the bridge is left as it was. *)
Theorem broadcast_plain (visits : list (Z * Q)) (m : message) (self : WebSocketBridge) :
  (exists cfg, m = ConfigMsg cfg) \/
  Forall (fun v => setting use_delta_encoding false (client_settings self !! v.1) = false)
         visits ->
  broadcast visits m self
  = ((fun v => (v.1, Plain m)) <$> visits, Returned (), self).
Proof.
  intros H. induction visits as [|[client_id t] rest IH]; [done|].
  assert (encode_for t client_id m self = (Returned (Plain m), self)) as E.
  { destruct H as [[cfg ->]|Hall]; [done|].
    apply Forall_cons in Hall as [Hoff _]. simpl in Hoff.
    destruct m; simpl; [|done]. by rewrite Hoff. }
  simpl. rewrite E, IH; [done|].
  destruct H as [|Hall]; [by left|right]. by apply Forall_cons in Hall as [_ ?].
Qed.

Lemma broadcast_plain_witness :
  broadcast [(1%Z, 5%Q); (2%Z, 6%Q)] (ConfigMsg default_config)
            (connect 0 2 (demo_bridge 1 [mkSweepData (1990 # 1) (-50 # 1)]))
  = ((fun v => (v.1, Plain (ConfigMsg default_config))) <$> [(1%Z, 5%Q); (2%Z, 6%Q)],
     Returned (),
     connect 0 2 (demo_bridge 1 [mkSweepData (1990 # 1) (-50 # 1)])).
Proof. apply broadcast_plain. left. by eexists. Defined.

Lemma broadcast_app pre post m :
  forall self,
  broadcast (pre ++ post) m self
  = match broadcast pre m self with
    | (sent, Returned _, self1) =>
        let '(more, result, self2) := broadcast post m self1 in
        (sent ++ more, result, self2)
    | (sent, Raised e, self1) => (sent, Raised e, self1)
    end.
Proof.
  induction pre as [|[client_id t] pre IH]; intros self; simpl.
  - by destruct (broadcast post m self) as [[more result] self2].
  - destruct (encode_for t client_id m self) as [[e|e] self1]; [|done].
    rewrite IH. destruct (broadcast pre m self1) as [[sent [u|e']] self2]; [|done].
    by destruct (broadcast post m self2) as [[more result] self3].
Qed.

Lemma encode_for_exn current_time client_id m self e :
  (encode_for current_time client_id m self).1 = Raised e -> e = IndexError.
Proof.
  destruct m as [timestamp cfg data|cfg]; simpl; [|done].
  destruct (setting use_delta_encoding false _); [|done].
  unfold _generate_delta_sweep.
  destruct (baseline_spectrum self !! client_id) as [b|]; [|done].
  destruct (negb _); [done|].
  destruct (update_baseline b _) as [[u|e'] b'] eqn:E; simpl; [done|].
  intros [= <-]. by eapply update_baseline_exn.
Qed.

Lemma broadcast_returned visits m :
  forall self sent u self',
  broadcast visits m self = (sent, Returned u, self') -> sent.*1 = visits.*1.
Proof.
  induction visits as [|[client_id t] rest IH]; intros self sent u self'; simpl.
  - by intros [= <- _ _].
  - destruct (encode_for t client_id m self) as [[enc|e] self1]; [|done].
    destruct (broadcast rest m self1) as [[sent' r] self2] eqn:E.
    intros [= <- -> <-]. rewrite fmap_cons. f_equal. by eapply IH.
Qed.

(** X9. What a broadcast does is independent of the order in which the
    set of clients is visited: when a broadcast that visits each client
    once returns, visiting the same clients (each with the same clock
    reading) in any other order returns too, hands each client the same
    message and leaves the same bridge. *)
Theorem broadcast_order_irrelevant (visits visits' : list (Z * Q)) (m : message)
    (self self' : WebSocketBridge) (sent : list (Z * encoded)) :
  visits ≡ₚ visits' ->
  NoDup visits.*1 ->
  broadcast visits m self = (sent, Returned (), self') ->
  exists sent',
    broadcast visits' m self = (sent', Returned (), self') /\ sent ≡ₚ sent'.
Proof.
  intros Hperm. revert self self' sent.
  induction Hperm as [|[c t] l l' Hp IH|[a ta] [b tb] l|l l' l'' Hp1 IH1 Hp2 IH2];
    intros self self' sent Hnd Hb.
  - exists sent. by split.
  - simpl in *. apply NoDup_cons in Hnd as [_ Hnd].
    destruct (encode_for t c m self) as [[enc|e] s1]; [|done].
    destruct (broadcast l m s1) as [[sl r] s2] eqn:El.
    injection Hb as <- -> <-.
    destruct (IH _ _ _ Hnd El) as (sl' & -> & Hsl).
    exists ((c, enc) :: sl'). by split; [|constructor].
  - simpl in Hnd. apply NoDup_cons in Hnd as [Hne _].
    assert (a <> b) as Hab by set_solver.
    pose proof (encode_for_commutes ta tb a b m m self Hab) as (H1 & H2 & H3).
    simpl in Hb |- *.
    destruct (encode_for tb b m self) as [[eb|e] s1]; [|done].
    simpl in *.
    destruct (encode_for ta a m s1) as [[ea|e] s2]; [|done].
    destruct (encode_for ta a m self) as [ra sA]. simpl in *. subst ra.
    destruct (encode_for tb b m sA) as [rb sB]. simpl in *. subst rb sB.
    destruct (broadcast l m s2) as [[sl r] s3].
    injection Hb as <- -> <-.
    exists ((a, ea) :: (b, eb) :: sl). split; [done|]. apply perm_swap.
  - destruct (IH1 _ _ _ Hnd Hb) as (sent1 & Hb1 & Hs1).
    assert (NoDup l'.*1) as Hnd' by (by rewrite <- Hp1).
    destruct (IH2 _ _ _ Hnd' Hb1) as (sent2 & Hb2 & Hs2).
    exists sent2. split; [done|]. by etrans.
Qed.

(** Two clients, the first in delta mode, visited in either order. *)
Lemma broadcast_order_irrelevant_witness :
  let self := connect 0 2 (demo_bridge 1 [mkSweepData (1990 # 1) (-50 # 1)]) in
  let m := SweepMsg 0 default_config [mkSweepData (1990 # 1) (-53 # 1)] in
  exists sent',
    broadcast [(2%Z, 6%Q); (1%Z, 5%Q)] m self
    = (sent', Returned (), (broadcast [(1%Z, 5%Q); (2%Z, 6%Q)] m self).2) /\
    (broadcast [(1%Z, 5%Q); (2%Z, 6%Q)] m self).1.1 ≡ₚ sent'.
Proof.
  apply (broadcast_order_irrelevant [(1%Z, 5%Q); (2%Z, 6%Q)] [(2%Z, 6%Q); (1%Z, 5%Q)]).
  - apply perm_swap.
  - simpl. apply NoDup_cons. split; [|apply NoDup_singleton].
    by intros ?%list_elem_of_singleton.
  - reflexivity.
Defined.

(** X19. In a run of [broadcast] in which the set of clients is not
    changed and the task is not cancelled, the clients are served in
    visiting order, one message each, unless the encoder raises for one of
    them.  Then the exception of the encoder, which can only be an
    [IndexError], leaves [broadcast]: the clients visited before that one
    have been served, each once and in order, and the ones after it get
    nothing. *)
Theorem broadcast_serves_a_prefix (visits : list (Z * Q)) (m : message)
    (self self' : WebSocketBridge) (sent : list (Z * encoded)) (result : outcome unit) :
  broadcast visits m self = (sent, result, self') ->
  match result with
  | Returned _ => sent.*1 = visits.*1
  | Raised e =>
      e = IndexError /\
      exists pre client_id current_time post self1,
        visits = pre ++ (client_id, current_time) :: post /\
        broadcast pre m self = (sent, Returned (), self1) /\
        encode_for current_time client_id m self1 = (Raised e, self') /\
        sent.*1 = pre.*1
  end.
Proof.
  revert self sent result self'.
  induction visits as [|[client_id t] rest IH]; intros self sent result self'.
  - simpl. by intros [= <- <- <-].
  - cbn [broadcast]. destruct (encode_for t client_id m self) as [[enc|e] self1] eqn:E.
    + destruct (broadcast rest m self1) as [[sent' r] self2] eqn:Eb.
      intros [= <- <- <-]. specialize (IH _ _ _ _ Eb).
      destruct r as [u|e].
      * rewrite !fmap_cons. by f_equal.
      * destruct IH as (-> & pre & c & ct & post & s1 & -> & Hpre & Henc & Hsent).
        split; [done|]. exists ((client_id, t) :: pre), c, ct, post, s1.
        split; [done|]. split; [simpl; by rewrite E, Hpre|]. split; [done|].
        rewrite !fmap_cons. by f_equal.
    + intros [= <- <- <-].
      split; [apply (encode_for_exn t client_id m self); by rewrite E|].
      by exists [], client_id, t, rest, self.
Qed.

(** Three clients; the second one visited is in delta mode with a
    baseline of one point, and the sweep has two. *)
Lemma broadcast_serves_a_prefix_witness :
  let visits := [(2%Z, 5%Q); (1%Z, 5%Q); (3%Z, 5%Q)] in
  let m := SweepMsg 0 default_config
             [mkSweepData (1990 # 1) (-50 # 1); mkSweepData (6000 # 1) (-60 # 1)] in
  let self := connect 0 3 (connect 0 2 (demo_bridge 1 [mkSweepData (1990 # 1) (-50 # 1)])) in
  IndexError = IndexError /\
  exists pre client_id current_time post self1,
    visits = pre ++ (client_id, current_time) :: post /\
    broadcast pre m self = ([(2%Z, Plain m)], Returned (), self1) /\
    encode_for current_time client_id m self1
    = (Raised IndexError, (broadcast visits m self).2) /\
    [(2%Z, Plain m)].*1 = pre.*1.
Proof.
  intros visits m self.
  exact (broadcast_serves_a_prefix visits m self (broadcast visits m self).2
           [(2%Z, Plain m)] (Raised IndexError) eq_refl).
Defined.

(** X20. One delta client whose baseline is shorter than the sweep
    stops the broadcast: the clients visited before it have been served,
    [IndexError] leaves [broadcast], and the clients visited after it get
    nothing. *)
Theorem broadcast_aborts_on_longer_sweep (pre post : list (Z * Q)) (client_id : Z)
    (current_time : Q) (timestamp : Z) (cfg : SweepConfig) (data : list SweepData)
    (self self1 : WebSocketBridge) (sent : list (Z * encoded))
    (baseline : list SweepData) :
  broadcast pre (SweepMsg timestamp cfg data) self = (sent, Returned (), self1) ->
  setting use_delta_encoding false (client_settings self1 !! client_id) = true ->
  delta_mode current_time client_id self1 baseline ->
  length baseline < length data ->
  exists self2,
    broadcast (pre ++ (client_id, current_time) :: post) (SweepMsg timestamp cfg data) self
    = (sent, Raised IndexError, self2) /\
    sent.*1 = pre.*1.
Proof.
  intros Hpre Huse Hmode Hlen.
  pose proof (longer_sweep_raises _ _ timestamp cfg _ _ _ Hmode Hlen) as Hraise.
  rewrite broadcast_app, Hpre. simpl. rewrite Huse.
  destruct (_generate_delta_sweep current_time client_id timestamp cfg data self1)
    as [r self2]. simpl in Hraise. subst r.
  exists self2. rewrite app_nil_r. split; [done|]. by eapply broadcast_returned.
Qed.

Lemma broadcast_aborts_on_longer_sweep_witness :
  exists self2,
    broadcast ([(2%Z, 5%Q)] ++ (1%Z, 5%Q) :: [(3%Z, 5%Q)])
      (SweepMsg 0 default_config
         [mkSweepData (1990 # 1) (-50 # 1); mkSweepData (6000 # 1) (-60 # 1)])
      (connect 0 3 (connect 0 2 (demo_bridge 1 [mkSweepData (1990 # 1) (-50 # 1)])))
    = ([(2%Z, Plain (SweepMsg 0 default_config
                       [mkSweepData (1990 # 1) (-50 # 1);
                        mkSweepData (6000 # 1) (-60 # 1)]))],
       Raised IndexError, self2) /\
    [(2%Z, Plain (SweepMsg 0 default_config
                    [mkSweepData (1990 # 1) (-50 # 1);
                     mkSweepData (6000 # 1) (-60 # 1)]))].*1
    = [(2%Z, 5%Q)].*1.
Proof.
  apply (broadcast_aborts_on_longer_sweep [(2%Z, 5%Q)] [(3%Z, 5%Q)] 1 5 0 default_config
           [mkSweepData (1990 # 1) (-50 # 1); mkSweepData (6000 # 1) (-60 # 1)]
           _ (connect 0 3 (connect 0 2 (demo_bridge 1 [mkSweepData (1990 # 1) (-50 # 1)])))
           _ [mkSweepData (1990 # 1) (-50 # 1)]).
  - reflexivity.
  - reflexivity.
  - split; reflexivity.
  - simpl. lia.
Defined.

(** * Commands *)

(** ** [f'{k:07d}'] and [int] *)

Lemma digit_char_spec d :
  (0 <= d <= 9)%Z ->
  is_digit (digit_char d) = true /\ digit_value (digit_char d) = d.
Proof.
  intros Hd. unfold is_digit, digit_value, digit_char.
  rewrite nat_ascii_embedding by lia.
  split; [|lia].
  apply andb_true_intro. split; apply Nat.leb_le; lia.
Qed.

Lemma decimal_value_app s c :
  decimal_value (s ++ [c]) = (decimal_value s * 10 + digit_value c)%Z.
Proof. unfold decimal_value. by rewrite fold_left_app. Qed.

Lemma pow10_succ k : (10 ^ Z.of_nat (S k) = 10 * 10 ^ Z.of_nat k)%Z.
Proof. rewrite Nat2Z.inj_succ, Z.pow_succ_r by lia. done. Qed.

Lemma decimal_digits_spec fuel :
  forall n, (0 <= n < 10 ^ Z.of_nat fuel)%Z -> 1 <= fuel ->
  all_digits (decimal_digits fuel n) /\
  decimal_value (decimal_digits fuel n) = n /\
  1 <= length (decimal_digits fuel n) /\
  forall k, 1 <= k -> length (decimal_digits fuel n) <= k <-> (n < 10 ^ Z.of_nat k)%Z.
Proof.
  induction fuel as [|fuel IH]; intros n Hn Hfuel; [lia|].
  rewrite pow10_succ in Hn. simpl.
  destruct (n <? 10)%Z eqn:E.
  - apply Z.ltb_lt in E. destruct (digit_char_spec n) as [Hd Hv]; [lia|].
    split; [by repeat constructor|]. split; [unfold decimal_value; simpl; lia|].
    split; [simpl; lia|]. intros k Hk. simpl. split; [|lia]. intros _.
    destruct k as [|k]; [lia|]. rewrite pow10_succ.
    pose proof (Z.pow_pos_nonneg 10 (Z.of_nat k)). lia.
  - apply Z.ltb_ge in E.
    assert (0 <= n / 10 < 10 ^ Z.of_nat fuel)%Z as Hq.
    { split; [apply Z.div_pos; lia|]. apply Z.div_lt_upper_bound; lia. }
    assert (1 <= fuel) as Hfuel'.
    { destruct fuel; [|lia]. change (10 ^ Z.of_nat 0)%Z with 1%Z in Hq.
      assert (n / 10 = 0)%Z as H0 by lia. pose proof (Z.div_mod n 10).
      pose proof (Z.mod_pos_bound n 10). lia. }
    destruct (IH _ Hq Hfuel') as (Hall & Hval & Hlen & Hk).
    pose proof (Z.mod_pos_bound n 10 ltac:(lia)) as Hm.
    destruct (digit_char_spec (n mod 10)) as [Hd Hv]; [lia|].
    split; [apply Forall_app; split; [done|by repeat constructor]|].
    split.
    { rewrite decimal_value_app, Hval, Hv. pose proof (Z.div_mod n 10). lia. }
    rewrite length_app. simpl. split; [lia|].
    intros k Hk1. destruct k as [|[|k]]; [lia| |].
    + change (10 ^ Z.of_nat 1)%Z with 10%Z. lia.
    + specialize (Hk (S k) ltac:(lia)). rewrite (pow10_succ (S k)).
      split.
      * intros Hle. assert (n / 10 < 10 ^ Z.of_nat (S k))%Z as Hlt by (apply Hk; lia).
        pose proof (Z.div_mod n 10). lia.
      * intros Hlt. assert (n / 10 < 10 ^ Z.of_nat (S k))%Z as Hq'.
        { apply Z.div_lt_upper_bound; lia. }
        apply Hk in Hq'. lia.
Qed.

Lemma decimal_fuel n : (0 <= n)%Z -> (n < 10 ^ Z.of_nat (S (Z.to_nat (Z.log2 n))))%Z.
Proof.
  intros Hn. rewrite Nat2Z.inj_succ, Z2Nat.id by apply Z.log2_nonneg.
  destruct (Z.eq_dec n 0%Z) as [->|Hne]; [done|].
  pose proof (Z.log2_spec n ltac:(lia)) as [_ Hlt].
  eapply Z.lt_le_trans; [exact Hlt|].
  apply Z.pow_le_mono_l. lia.
Qed.

Lemma decimal_spec n :
  (0 <= n)%Z ->
  all_digits (decimal n) /\ decimal_value (decimal n) = n /\ 1 <= length (decimal n) /\
  forall k, 1 <= k -> length (decimal n) <= k <-> (n < 10 ^ Z.of_nat k)%Z.
Proof.
  intros Hn. apply decimal_digits_spec; [|lia]. split; [done|]. by apply decimal_fuel.
Qed.

Lemma zfill_spec width s :
  all_digits s ->
  all_digits (zfill width s) /\ decimal_value (zfill width s) = decimal_value s /\
  length (zfill width s) = max width (length s).
Proof.
  intros Hs. unfold zfill. split; [|split].
  - apply Forall_app. split; [|done].
    induction (width - length s) as [|k IH]; simpl; by constructor.
  - unfold decimal_value. rewrite fold_left_app.
    assert (fold_left (fun acc c => (acc * 10 + digit_value c)%Z)
                      (repeat "0"%char (width - length s)) 0%Z = 0%Z) as ->; [|done].
    induction (width - length s) as [|k IH]; [done|]. simpl. exact IH.
  - rewrite length_app, repeat_length. lia.
Qed.

Lemma nonempty_length {A} (l : list A) : 1 <= length l -> l <> [].
Proof. destruct l; simpl; [lia|done]. Qed.

Lemma decode_encode s payload :
  encode_ascii s = Some payload -> decode_ascii payload = Some s.
Proof.
  revert payload. induction s as [|c r IH]; intros payload; simpl.
  - by intros [= <-].
  - destruct (nat_of_ascii c <? 128) eqn:E; [|done].
    destruct (encode_ascii r) as [p|]; [|done]. simpl. intros [= <-]. simpl.
    assert (Byte.to_nat (byte_of_ascii c) = nat_of_ascii c) as Hn.
    { by destruct c as [[] [] [] [] [] [] [] []]. }
    rewrite Hn, E, (IH p) by done. simpl. by rewrite ascii_of_byte_of_ascii.
Qed.

Lemma encode_ascii_length s payload :
  encode_ascii s = Some payload -> length payload = length s.
Proof.
  revert payload. induction s as [|c r IH]; intros payload; simpl.
  - by intros [= <-].
  - destruct (nat_of_ascii c <? 128); [|done].
    destruct (encode_ascii r) as [p|]; [|done]. simpl. intros [= <-]. simpl.
    by rewrite (IH p).
Qed.

Lemma encode_ascii_is_ascii s : is_ascii s <-> is_Some (encode_ascii s).
Proof.
  induction s as [|c r IH]; simpl.
  - split; [by eexists|constructor].
  - unfold is_ascii in *. rewrite Forall_cons, IH.
    destruct (nat_of_ascii c <? 128) eqn:E.
    + apply Nat.ltb_lt in E. destruct (encode_ascii r); simpl.
      * split; [by eexists|done].
      * split; [by intros [_ [? ?]]|by intros [? ?]].
    + apply Nat.ltb_ge in E. split; [lia|by intros [? ?]].
Qed.

Lemma encode_ascii_app s1 s2 p1 p2 :
  encode_ascii s1 = Some p1 -> encode_ascii s2 = Some p2 ->
  encode_ascii (s1 ++ s2) = Some (p1 ++ p2).
Proof.
  revert p1. induction s1 as [|c r IH]; intros p1; simpl.
  - by intros [= <-].
  - destruct (nat_of_ascii c <? 128); [|done].
    destruct (encode_ascii r) as [p|]; [|done]. simpl. intros [= <-] H2.
    by rewrite (IH p).
Qed.

Lemma digits_are_ascii s : all_digits s -> is_ascii s.
Proof.
  intros Hall. eapply Forall_impl; [exact Hall|]. intros c. unfold is_digit.
  intros [_ H]%andb_prop. apply Nat.leb_le in H. lia.
Qed.

Lemma find_eol_app_r l x r :
  find_eol l = None -> is_eol x = true -> find_eol (l ++ x :: r) = Some (length l).
Proof.
  intros Hl Hx. induction l as [|y l IH]; simpl in *; [by rewrite Hx|].
  destruct (is_eol y); [done|].
  destruct (find_eol l); [done|]. by rewrite IH.
Qed.

(** ** From the command to the config frame *)

(** A config frame with its terminator within the first 100 bytes is taken
    off the buffer whole. *)
Lemma parse_config_frame cfg payload eol rest :
  find_eol payload = None -> length payload < 98 -> is_eol eol = true ->
  _parse_config (mkSerial cfg (MARKER :: TAG_CONFIG :: payload ++ eol :: rest))
  = (Some (ConfigMsg (config_update cfg payload)),
     mkSerial (config_update cfg payload) rest).
Proof.
  intros Hp Hlen Heol. unfold _parse_config. cbn [buffer config].
  assert (eol_index (MARKER :: TAG_CONFIG :: payload ++ eol :: rest)
          = Some (2 + length payload)) as ->.
  { unfold eol_index. rewrite take_min_length.
    change (take 100 (MARKER :: TAG_CONFIG :: ?l)) with (MARKER :: TAG_CONFIG :: take 98 l).
    rewrite take_app_ge by lia.
    destruct (98 - length payload) as [|n] eqn:En; [lia|]. cbn [take].
    change (find_eol (MARKER :: TAG_CONFIG :: ?l)) with (S <$> (S <$> find_eol l)).
    by rewrite find_eol_app_r. }
  unfold slice.
  replace (2 + length payload - 2) with (length payload) by lia.
  change (drop 2 (MARKER :: TAG_CONFIG :: ?l)) with l.
  rewrite take_app_length.
  replace (2 + length payload + 1) with (S (S (length (payload ++ [eol]))))
    by (rewrite length_app; simpl; lia).
  change (drop (S (S ?n)) (MARKER :: TAG_CONFIG :: ?l)) with (drop n l).
  rewrite (cons_middle eol payload rest), app_assoc, drop_app_length. done.
Qed.

(** A number of kHz below ten million is printed as seven digits. *)
Lemma format_07d_digits k :
  (0 <= k < 10000000)%Z ->
  exists s,
    format_07d k = Some s /\ all_digits s /\ length s = 7 /\ decimal_value s = k.
Proof.
  intros Hk. unfold format_07d. replace (Z.abs k) with k by lia.
  destruct (decimal_spec k) as (Hall & Hval & _ & Hd); [lia|].
  specialize (Hd 7 ltac:(lia)). change (10 ^ Z.of_nat 7)%Z with 10000000%Z in Hd.
  assert (length (decimal k) <= 7) as Hlen by (apply Hd; lia).
  destruct (MAX_STR_DIGITS <? length (decimal k)) eqn:E.
  { apply Nat.ltb_lt in E. unfold MAX_STR_DIGITS in E. lia. }
  destruct (k <? 0)%Z eqn:E0; [apply Z.ltb_lt in E0; lia|].
  destruct (zfill_spec 7 _ Hall) as (Hall' & Hval' & Hlen').
  exists (zfill 7 (decimal k)). split; [done|]. split; [done|]. split; [lia|].
  by rewrite Hval'.
Qed.

Lemma printable_no_eol s payload :
  Forall (fun c => (32 <=? nat_of_ascii c) = true) s ->
  encode_ascii s = Some payload -> find_eol payload = None.
Proof.
  revert payload. induction s as [|c r IH]; intros payload Hall; simpl.
  - by intros [= <-].
  - apply Forall_cons in Hall as [Hc Hr].
    destruct (nat_of_ascii c <? 128); [|done].
    destruct (encode_ascii r) as [p|]; [|done]. simpl. intros [= <-]. simpl.
    rewrite (IH p) by done.
    assert (is_eol (byte_of_ascii c) = false) as ->; [|done].
    revert Hc. by destruct c as [[] [] [] [] [] [] [] []].
Qed.

Lemma digits_printable s :
  all_digits s -> Forall (fun c => (32 <=? nat_of_ascii c) = true) s.
Proof.
  intros Hall. eapply Forall_impl; [exact Hall|]. intros c. unfold is_digit.
  intros [H _]%andb_prop. apply Nat.leb_le in H. apply Nat.leb_le. lia.
Qed.

(** X22. The two fields [set_frequency_range] formats are what the two
    [int] calls of [_parse_config] read: for kHz values from 0 to 9999999
    each field has seven digits, [int] reads it back as the value, and a
    config frame whose payload is the two fields one after the other is
    consumed whole, with [int(config_str[0:7])] the first value and
    [int(config_str[7:14])] the second, so that the [try] block reaches
    its assignments.  With the comma the command puts between them, the
    payload is malformed: the frame is consumed and the configuration
    stays as it was. *)
Theorem formatted_fields_parse_back (start_khz span_khz : Z) (cfg : SweepConfig)
    (eol : byte) (rest : list byte) :
  (0 <= start_khz < 10000000)%Z ->
  (0 <= span_khz < 10000000)%Z ->
  is_eol eol = true ->
  exists start span,
    format_07d start_khz = Some start /\ format_07d span_khz = Some span /\
    length start = 7 /\ length span = 7 /\
    py_int start = Some start_khz /\ py_int span = Some span_khz /\
    frequency_command start_khz span_khz
    = Some (list_ascii_of_string "#0C2-F:" ++ start ++ ","%char :: span) /\
    (exists payload config_str cfg',
       encode_ascii (start ++ span) = Some payload /\
       decode_ascii payload = Some config_str /\
       length config_str = 14 /\
       py_int (take 7 config_str) = Some start_khz /\
       py_int (take 7 (drop 7 config_str)) = Some span_khz /\
       try_config cfg payload = inr cfg' /\
       _parse_config (mkSerial cfg (MARKER :: TAG_CONFIG :: payload ++ eol :: rest))
       = (Some (ConfigMsg cfg'), mkSerial cfg' rest)) /\
    (exists payload,
       encode_ascii (start ++ ","%char :: span) = Some payload /\
       try_config cfg payload = inl ValueError /\
       _parse_config (mkSerial cfg (MARKER :: TAG_CONFIG :: payload ++ eol :: rest))
       = (Some (ConfigMsg cfg), mkSerial cfg rest)).
Proof.
  intros Ha Hb Heol.
  destruct (format_07d_digits _ Ha) as (start & Hfa & Hda & Hla & Hva).
  destruct (format_07d_digits _ Hb) as (span & Hfb & Hdb & Hlb & Hvb).
  assert (py_int start = Some start_khz) as Hia.
  { rewrite py_int_digits, Hva; [done| |done]. apply nonempty_length. lia. }
  assert (py_int span = Some span_khz) as Hib.
  { rewrite py_int_digits, Hvb; [done| |done]. apply nonempty_length. lia. }
  exists start, span. unfold frequency_command. rewrite Hfa, Hfb.
  do 7 (split; [done|]). split.
  - assert (all_digits (start ++ span)) as Hall by (by apply Forall_app).
    destruct (proj1 (encode_ascii_is_ascii _) (digits_are_ascii _ Hall)) as [payload Hp].
    pose proof (encode_ascii_length _ _ Hp) as Hlen. rewrite length_app in Hlen.
    pose proof (decode_encode _ _ Hp) as Hdec.
    assert (take 7 (start ++ span) = start) as Htake.
    { rewrite <- Hla. apply take_app_length. }
    assert (take 7 (drop 7 (start ++ span)) = span) as Hdrop.
    { assert (drop 7 (start ++ span) = span) as ->; [|apply take_ge; lia].
      rewrite <- Hla. apply drop_app_length. }
    assert (try_config cfg payload
            = inr (mkSweepConfig
                     (inject_Z start_khz / (1000 # 1))%Q
                     (inject_Z start_khz / (1000 # 1) + inject_Z span_khz / (1000 # 1))%Q
                     (steps cfg) (rbw_khz cfg))) as Htry.
    { unfold try_config. rewrite Hdec, Htake, Hdrop, Hia, Hib.
      destruct (14 <=? length (start ++ span)) eqn:E; [done|].
      apply Nat.leb_gt in E. rewrite length_app in E. lia. }
    exists payload, (start ++ span). eexists.
    split; [done|]. split; [done|]. split; [rewrite length_app; lia|].
    rewrite Htake, Hdrop. split; [done|]. split; [done|]. split; [exact Htry|].
    rewrite parse_config_frame; [|..|done].
    + unfold config_update. by rewrite Htry.
    + eapply printable_no_eol; [|done]. by apply digits_printable.
    + lia.
  - assert (is_ascii (start ++ ","%char :: span)) as Hasc.
    { apply Forall_app. split; [by apply digits_are_ascii|].
      constructor; [change (44 < 128); lia|by apply digits_are_ascii]. }
    destruct (proj1 (encode_ascii_is_ascii _) Hasc) as [payload Hp].
    pose proof (encode_ascii_length _ _ Hp) as Hlen.
    rewrite length_app in Hlen. simpl in Hlen.
    pose proof (decode_encode _ _ Hp) as Hdec.
    assert (try_config cfg payload = inl ValueError) as Htry.
    { unfold try_config. rewrite Hdec.
      destruct (14 <=? length (start ++ ","%char :: span)) eqn:E.
      2:{ apply Nat.leb_gt in E. rewrite length_app in E. simpl in E. lia. }
      assert (take 7 (start ++ ","%char :: span) = start) as ->.
      { rewrite <- Hla. apply take_app_length. }
      rewrite Hia.
      destruct (py_int (take 7 (drop 7 (start ++ ","%char :: span)))) as [z|] eqn:Ez;
        [|done].
      assert (drop 7 (start ++ ","%char :: span) = ","%char :: span) as Hd.
      { rewrite <- Hla. apply drop_app_length. }
      apply py_int_chars in Ez. rewrite Hd in Ez. simpl in Ez.
      by apply Forall_cons in Ez as [? _]. }
    exists payload. split; [done|]. split; [done|].
    rewrite parse_config_frame; [|..|done].
    + unfold config_update. by rewrite Htry.
    + eapply printable_no_eol; [|done].
      apply Forall_app. split; [by apply digits_printable|].
      constructor; [done|by apply digits_printable].
    + lia.
Qed.

(** The fields of [set_frequency_range(199.0, 600.0)]: 199000 and 401000
    kHz, [0199000] and [0401000]. *)
Lemma formatted_fields_parse_back_witness :
  exists start span,
    format_07d 199000 = Some start /\ format_07d 401000 = Some span /\
    length start = 7 /\ length span = 7 /\
    py_int start = Some 199000%Z /\ py_int span = Some 401000%Z /\
    frequency_command 199000 401000
    = Some (list_ascii_of_string "#0C2-F:" ++ start ++ ","%char :: span).
Proof.
  destruct (formatted_fields_parse_back 199000 401000 default_config CR []
              ltac:(lia) ltac:(lia) eq_refl)
    as (start & span & H1 & H2 & H3 & H4 & H5 & H6 & H7 & _).
  exists start, span. repeat split; assumption.
Defined.

Lemma send_line cmd data port :
  is_open port = true ->
  encode_ascii cmd = Some data ->
  send_command cmd (Some port)
  = inr (Some (mkPort true (written port ++ data ++ [CR; LF]))).
Proof.
  intros Hopen Hdata. unfold send_command. rewrite Hopen.
  by rewrite (encode_ascii_app cmd ["013"%char; "010"%char] data [CR; LF] Hdata eq_refl).
Qed.

(** X23. On an open port [send_command] writes the command and CR LF
    after what was written before, when the command is ASCII, and the
    bytes decode back to the command; otherwise it raises
    [UnicodeEncodeError] and writes nothing.  On a closed or absent port
    it does nothing, whatever the command. *)
Theorem send_command_writes_one_line (cmd : str) (port : Port) :
  is_open port = true ->
  (is_ascii cmd ->
   exists data,
     encode_ascii cmd = Some data /\ decode_ascii data = Some cmd /\
     send_command cmd (Some port)
     = inr (Some (mkPort true (written port ++ data ++ [CR; LF])))) /\
  (~ is_ascii cmd -> send_command cmd (Some port) = inl UnicodeEncodeError) /\
  (forall closed, is_open closed = false ->
     send_command cmd (Some closed) = inr (Some closed)) /\
  send_command cmd None = inr None.
Proof.
  intros Hopen. repeat split.
  - intros [data Hdata]%encode_ascii_is_ascii. exists data.
    split; [done|]. split; [by apply decode_encode|by apply send_line].
  - intros Hnot. unfold send_command. rewrite Hopen.
    destruct (encode_ascii (cmd ++ _)) as [data|] eqn:E; [|done].
    destruct Hnot.
    assert (is_ascii (cmd ++ ["013"%char; "010"%char]))
      as Hall by (apply encode_ascii_is_ascii; by eexists).
    by apply Forall_app in Hall as [? _].
  - intros closed Hclosed. unfold send_command. by rewrite Hclosed.
Qed.

Lemma send_command_writes_one_line_witness :
  exists data,
    encode_ascii (list_ascii_of_string "#0C3") = Some data /\
    decode_ascii data = Some (list_ascii_of_string "#0C3") /\
    send_command (list_ascii_of_string "#0C3") (Some (mkPort true []))
    = inr (Some (mkPort true ([] ++ data ++ [CR; LF]))).
Proof.
  apply (send_command_writes_one_line (list_ascii_of_string "#0C3") (mkPort true []) eq_refl).
  apply encode_ascii_is_ascii. by eexists.
Defined.
